(** * Versioning action: version resolution and changelog generation

    A shallow embedding of [src/main.ts] of the versioning action, in the
    revision kept in [src/src/graphql/queries/GetCommits.graphql]
    (lines 30-546): [extractVersionInfo], [getReleases], [generateChangelog]
    and [run].

    Modelling choices:
    - JavaScript strings are Stdlib [string]s of ASCII characters.
    - A date string is represented by the value [Date.parse] gives it:
      [Some t] (milliseconds) or [None] for NaN.  Every comparison with
      NaN is false, as in JavaScript.
    - The numbers of a version are JavaScript numbers (doubles).  The ones
      this program builds are non-negative integers or +Infinity: [parseInt]
      gives the double nearest to the value of the digits, [x++] the double
      nearest to [x + 1], and a template literal prints a number with
      Number::toString, in exponent form from 1e21 on.
    - [client.query] runs with Apollo's default [errorPolicy: 'none']: an
      answer that carries GraphQL errors rejects the promise, so the
      [if (errors)] branch of [getReleases] is never taken.
    - [run] is a function from the process environment, the workflow
      context and the answers of the remote services to the list of
      observable effects it performs.  A thrown error or a rejected promise
      ends in the [run().catch] handler. *)

From Stdlib Require Import ZArith List Bool Ascii String Lia Btauto.
From Stdlib Require Import Numbers.DecimalString Numbers.DecimalPos Numbers.DecimalZ Sorting.Sorted.
Import ListNotations.
Open Scope string_scope.
Open Scope Z_scope.

(** ** JavaScript numbers *)

(** The numbers this program builds: [Num z] is the double with the
    integer value [z] (always a non-negative integer here), [Infinity] is
    +Infinity. *)
Inductive number : Type :=
| Num (z : Z)
| Infinity.

(** ** JavaScript primitives on ASCII strings and numbers *)

Module JS.

(** [String.prototype.trim] whitespace: TAB, LF, VT, FF, CR, SPACE. *)
Definition is_ws (c : ascii) : bool :=
  let n := nat_of_ascii c in
  (Nat.eqb n 9 || Nat.eqb n 10 || Nat.eqb n 11 || Nat.eqb n 12
   || Nat.eqb n 13 || Nat.eqb n 32)%bool.

Fixpoint trim_start (s : list ascii) : list ascii :=
  match s with
  | c :: s' => if is_ws c then trim_start s' else s
  | [] => []
  end.

Definition trim (s : string) : string :=
  string_of_list_ascii
    (rev (trim_start (rev (trim_start (list_ascii_of_string s))))).

Definition lower_char (c : ascii) : ascii :=
  let n := nat_of_ascii c in
  if (Nat.leb 65 n && Nat.leb n 90)%bool then ascii_of_nat (n + 32) else c.

Definition upper_char (c : ascii) : ascii :=
  let n := nat_of_ascii c in
  if (Nat.leb 97 n && Nat.leb n 122)%bool then ascii_of_nat (n - 32) else c.

Definition toLowerCase (s : string) : string :=
  string_of_list_ascii (map lower_char (list_ascii_of_string s)).

(** [s.startsWith(p)] *)
Definition startsWith (s p : string) : bool := String.prefix p s.

(** [s.substring(0, n)] *)
Definition substring0 (s : string) (n : nat) : string := String.substring 0 n s.

(** [s.replace(a, b)] for a one-character pattern [a]: the first
    occurrence only. *)
Fixpoint replace_first (a : ascii) (b : string) (s : string) : string :=
  match s with
  | EmptyString => EmptyString
  | String c s' => if Ascii.eqb c a then b ++ s' else String c (replace_first a b s')
  end.

(** [_.join(xs, sep)] *)
Fixpoint join (xs : list string) (sep : string) : string :=
  match xs with
  | [] => ""
  | [x] => x
  | x :: xs' => x ++ sep ++ join xs' sep
  end.

(** The decimal digits of a non-negative integer, no leading zero. *)
Definition decimal (x : Z) : string := NilEmpty.string_of_int (Z.to_int x).

(** The Number value for a non-negative integer [m]: the nearest double,
    ties to the even significand, +Infinity when the rounding reaches
    2^1024.  Doubles have 53-bit significands: below 2^53 every integer is
    exact. *)
Definition double_of_Z (m : Z) : number :=
  if m <? 2 ^ 53 then Num m
  else
    let sh := Z.log2 m - 52 in
    let q := Z.shiftr m sh in
    let r := m - Z.shiftl q sh in
    let half := 2 ^ (sh - 1) in
    let q' := if (half <? r) || ((r =? half) && Z.odd q) then q + 1 else q in
    let v := Z.shiftl q' sh in
    if v <? 2 ^ 1024 then Num v else Infinity.

Definition digit_value (c : ascii) : Z := Z.of_nat (nat_of_ascii c) - 48.

(** The mathematical value of a string of decimal digits. *)
Definition digitsValue (ds : list ascii) : Z :=
  fold_left (fun acc c => acc * 10 + digit_value c) ds 0.

(** [parseInt] of a non-empty string of decimal digits: the Number value of
    the integer the digits denote. *)
Definition parseInt (ds : list ascii) : number := double_of_Z (digitsValue ds).

(** [x++] on a number: the Number value of [x + 1]. *)
Definition incr (x : number) : number :=
  match x with
  | Num z => double_of_Z (z + 1)
  | Infinity => Infinity
  end.

Definition number_eqb (a b : number) : bool :=
  match a, b with
  | Num x, Num y => Z.eqb x y
  | Infinity, Infinity => true
  | _, _ => false
  end.

(** Number::toString, step 5, at the exponent [j = n - k]: among the
    integers [s >= 1] with [s * 10^j] rounding to [x], the candidates
    closest to [x] are [x / 10^j] and [x / 10^j + 1]; the closer one wins,
    the even one on a tie. *)
Definition pick (x j : Z) : option Z :=
  let p := 10 ^ j in
  let c1 := x / p in
  let c2 := c1 + 1 in
  let ok c := ((0 <? c) && number_eqb (double_of_Z (c * p)) (Num x))%bool in
  match ok c1, ok c2 with
  | true, true =>
      let d1 := x - c1 * p in
      let d2 := c2 * p - x in
      if d1 <? d2 then Some c1
      else if d2 <? d1 then Some c2
      else if Z.even c1 then Some c1 else Some c2
  | true, false => Some c1
  | false, true => Some c2
  | false, false => None
  end.

(** The fewest digits [k]: the largest exponent [j], from [j] down to 0,
    that has a candidate.  At [j = 0], [s = x] itself qualifies. *)
Fixpoint shortest (x : Z) (j : nat) : Z * Z :=
  match pick x (Z.of_nat j) with
  | Some s => (s, Z.of_nat j)
  | None =>
      match j with
      | O => (x, 0)
      | S j' => shortest x j'
      end
  end.

(** Number::toString(x) with radix 10, on the numbers of this program.
    With [s] of [k] digits and [n = k + j]: for [n <= 21] (that is
    [s * 10^j < 10^21]) the digits of [s] followed by [j] zeros, which are
    the digits of [s * 10^j]; otherwise the exponent form [d.ddde+(n-1)]. *)
Definition number_toString (x : number) : string :=
  match x with
  | Infinity => "Infinity"
  | Num z =>
      if z =? 0 then "0"
      else
        let '(s, j) := shortest z (String.length (decimal z)) in
        if s * 10 ^ j <? 10 ^ 21 then decimal (s * 10 ^ j)
        else
          let ds := decimal s in
          let n := Z.of_nat (String.length ds) + j in
          match ds with
          | String d EmptyString => String d EmptyString
          | String d rest => String d ("." ++ rest)
          | EmptyString => EmptyString
          end ++ "e+" ++ decimal (n - 1)
  end.

Definition nl : string := String (ascii_of_nat 10) EmptyString.

End JS.

(** ** The regular expression of [extractVersionInfo]

    [/^v(\d+).(\d+).(\d+)(-((development)|((rc).(\d+)))\+([a-f0-9]+))?$/gims]

    The flags matter: [i] makes letters match case-insensitively, [m] makes
    [^] and [$] match at line boundaries, [s] makes the unescaped [.] match
    every character.  The matcher below is the backtracking semantics of
    ECMAScript for the constructs this pattern uses, written in
    continuation-passing style. *)

Module Regex.

Inductive re : Type :=
| RLit (c : ascii)                 (* a literal character, under the i flag *)
| RAny                             (* [.] under the s flag *)
| RPlus (cls : ascii -> bool)      (* a greedy [+] over a character class *)
| RSeq (r1 r2 : re)
| RAlt (r1 r2 : re)
| RGroup (n : nat) (r : re)        (* capture group number n *)
| ROpt (r : re)                    (* a greedy [?] *)
| RBol                             (* [^] under the m flag *)
| REol.                            (* [$] under the m flag *)

(** Captures, newest first. *)
Definition Caps := list (nat * list ascii).

Fixpoint cap (n : nat) (cs : Caps) : option (list ascii) :=
  match cs with
  | [] => None
  | (m, v) :: cs' => if Nat.eqb m n then Some v else cap n cs'
  end.

(** Canonicalize of the i flag (non-unicode mode) on ASCII. *)
Definition canon := JS.upper_char.

Definition is_line_terminator (c : ascii) : bool :=
  (Nat.eqb (nat_of_ascii c) 10 || Nat.eqb (nat_of_ascii c) 13)%bool.

Definition is_digit (c : ascii) : bool :=
  (Nat.leb 48 (nat_of_ascii c) && Nat.leb (nat_of_ascii c) 57)%bool.

(** [[a-f0-9]] under the i flag: [a-f], [A-F] and the digits. *)
Definition is_hex_i (c : ascii) : bool :=
  let n := nat_of_ascii (canon c) in
  (is_digit c || (Nat.leb 65 n && Nat.leb n 70))%bool.

Definition Cont := option ascii -> list ascii -> Caps -> option Caps.

(** Greedy [+]: consume as much as possible, then back off one at a time. *)
Fixpoint plus_go (cls : ascii -> bool) (s : list ascii) (caps : Caps) (k : Cont)
  : option Caps :=
  match s with
  | a :: s' =>
      if cls a then
        match plus_go cls s' caps k with
        | Some c => Some c
        | None => k (Some a) s' caps
        end
      else None
  | [] => None
  end.

(** [mtch r prev s caps k]: match [r] on input [s], where [prev] is the
    character just before [s] (None at the start of the input). *)
Fixpoint mtch (r : re) (prev : option ascii) (s : list ascii) (caps : Caps)
  (k : Cont) {struct r} : option Caps :=
  match r with
  | RLit c =>
      match s with
      | a :: s' => if Ascii.eqb (canon a) (canon c) then k (Some a) s' caps else None
      | [] => None
      end
  | RAny =>
      match s with
      | a :: s' => k (Some a) s' caps
      | [] => None
      end
  | RPlus cls => plus_go cls s caps k
  | RSeq r1 r2 => mtch r1 prev s caps (fun p' s' c' => mtch r2 p' s' c' k)
  | RAlt r1 r2 =>
      match mtch r1 prev s caps k with
      | Some c => Some c
      | None => mtch r2 prev s caps k
      end
  | RGroup n r1 =>
      mtch r1 prev s caps
        (fun p' s' c' => k p' s' ((n, firstn (List.length s - List.length s') s) :: c'))
  | ROpt r1 =>
      match mtch r1 prev s caps k with
      | Some c => Some c
      | None => k prev s caps
      end
  | RBol =>
      match prev with
      | None => k prev s caps
      | Some c => if is_line_terminator c then k prev s caps else None
      end
  | REol =>
      match s with
      | [] => k prev s caps
      | a :: _ => if is_line_terminator a then k prev s caps else None
      end
  end.

(** [regex.exec(s)] with [lastIndex = 0]: the leftmost match. *)
Fixpoint exec_from (r : re) (prev : option ascii) (s : list ascii) : option Caps :=
  match mtch r prev s [] (fun _ _ c => Some c) with
  | Some c => Some c
  | None =>
      match s with
      | [] => None
      | a :: s' => exec_from r (Some a) s'
      end
  end.

Definition exec (r : re) (s : string) : option Caps :=
  exec_from r None (list_ascii_of_string s).

Fixpoint lits (s : string) : re :=
  match s with
  | EmptyString => RAny (* unused: patterns below are non-empty *)
  | String c EmptyString => RLit c
  | String c s' => RSeq (RLit c) (lits s')
  end.

Fixpoint seqs (rs : list re) : re :=
  match rs with
  | [] => RBol
  | [r] => r
  | r :: rs' => RSeq r (seqs rs')
  end.

Definition digits : re := RPlus is_digit.

Definition version_regex : re :=
  seqs [ RBol; RLit "v"; RGroup 1 digits; RAny; RGroup 2 digits; RAny;
         RGroup 3 digits;
         ROpt (RGroup 4 (seqs
           [ RLit "-";
             RGroup 5 (RAlt (RGroup 6 (lits "development"))
                            (RGroup 7 (seqs [RGroup 8 (lits "rc"); RAny; RGroup 9 digits])));
             RLit "+";
             RGroup 10 (RPlus is_hex_i) ]));
         REol ].

End Regex.

(** ** Data model *)

(** [ReleaseType] is a string at run time: the [as ReleaseType] casts in
    the source check nothing. *)
Definition ReleaseType := string.

Record VersionInfo := mkVersionInfo {
  major : number;
  minor : number;
  patch : number;
  releaseType : ReleaseType;
  releaseCandidate : option number;   (* None is NaN / undefined *)
  hash : option string;
}.

(** A date string, as [Date.parse] reads it ([None] is NaN). *)
Definition DateString := option Z.

Record UsefulReleaseData := mkRelease {
  name : string;
  versionInfo : VersionInfo;
  releaseDate : DateString;
  tagDate : DateString;
  sha : string;
  isDraft : bool;
}.

(** ** [extractVersionInfo] *)

Definition extractVersionInfo (versionString : string) : option VersionInfo :=
  match Regex.exec Regex.version_regex versionString with
  | Some m =>
      match Regex.cap 1 m, Regex.cap 2 m, Regex.cap 3 m with
      | Some g1, Some g2, Some g3 =>
          let releaseType :=
            match Regex.cap 8 m with
            | Some g8 => string_of_list_ascii g8
            | None =>
                match Regex.cap 5 m with
                | Some g5 => string_of_list_ascii g5
                | None => "production"
                end
            end in
          Some {| major := JS.parseInt g1;
                  minor := JS.parseInt g2;
                  patch := JS.parseInt g3;
                  releaseType := releaseType;
                  releaseCandidate := option_map JS.parseInt (Regex.cap 9 m);
                  hash := option_map string_of_list_ascii (Regex.cap 10 m) |}
      (* groups 1-3 are set by every match *)
      | _, _, _ => None
      end
  | None => None
  end.

(** ** The run's environment *)

Record TagCommit := mkTagCommit {
  authoredDate : DateString;
  oid : string;
}.

Record ReleaseNode := mkReleaseNode {
  node_name : option string;
  node_updatedAt : DateString;
  node_tagCommit : option TagCommit;
  node_isDraft : bool;
}.

Record ReleaseEdge := mkReleaseEdge { edge_node : option ReleaseNode }.

(** [data.repository.releases] of one [GetReleases] answer. *)
Record ReleasesPage := mkReleasesPage {
  page_edges : option (list (option ReleaseEdge));
  page_endCursor : option string;
  page_hasNextPage : bool;
}.

(** The outcome of one [client.query] of [GetReleases].  When
    [answer_errors] holds (GraphQL errors in the response, or a failed
    request) the promise rejects with an [ApolloError] whose message is
    [answer_errorMessage]; otherwise it resolves to [data], whose
    [repository] is [answer_repository]. *)
Record ReleasesAnswer := mkReleasesAnswer {
  answer_errors : bool;
  answer_errorMessage : string;
  answer_repository : option ReleasesPage;
}.

(** The answer of the [GetReleases] query for a given [after] cursor. *)
Definition ReleaseSource := option string -> ReleasesAnswer.

(** Observable effects of a run: failure reports, network requests, outputs. *)
Inductive Event : Type :=
| EvSetFailed (msg : string)
| EvQueryReleases (after : option string)
| EvGetCommit (commit_sha : string)
| EvCompareCommits (base head : string)
| EvSetOutput (output value : string)
| EvCreateTag (tag : string)
| EvCreateRef (ref : string)
| EvCreateRelease (tag_name body : string) (prerelease : bool)
| EvSlackUpload (content : string).

(** The outcome of an awaited call or of an evaluation that may throw:
    [inl msg] when it throws or rejects with message [msg]. *)
Definition Answer (A : Type) := (string + A)%type.

(** What a run reads: the process environment after [dotenv.config()],
    the inputs, the workflow context of [@actions/github], and the answers
    of the remote services. *)
Record Env := mkEnv {
  env_GITHUB_REF : option string;
  env_GITHUB_SHA : option string;
  env_GITHUB_TOKEN : option string;
  input_github_token : string;          (* [core.getInput] gives "" when unset *)
  env_RELEASE_TYPE : option string;
  input_release_type : string;
  env_DRY_RUN : option string;
  env_GITHUB_OWNER : option string;
  env_GITHUB_REPO : option string;
  (* [github.context.repo]: [(owner, repo)] from [GITHUB_REPOSITORY] or the
     event payload; [None] when the getter throws for want of both *)
  context_repo : option (string * string);
  (* [github.context.sha]: [GITHUB_SHA] as it was when the module was
     loaded, before [dotenv.config()]; [None] is undefined *)
  context_sha : option string;
  releaseSource : ReleaseSource;
  (* [git.getCommit]: [Date.parse] of the commit's author date *)
  getCommit : string -> Answer Z;
  (* [repos.compareCommits(base, head)]: the commit messages *)
  compareCommits : string -> string -> Answer (list string);
  (* the message a write request (tag, ref, release, Slack upload) is
     rejected with, [None] when it succeeds *)
  writeFails : Event -> option string;
}.

(** The [run().catch] handler. *)
Definition catchFailure (msg : string) : Event := EvSetFailed ("Workflow failed! " ++ msg).

(** The error the [github.context.repo] getter throws. *)
Definition contextRepoError : string :=
  "context.repo requires a GITHUB_REPOSITORY environment variable like 'owner/repo'".

(** [process.env.GITHUB_REPO ?? github.context.repo.repo] *)
Definition repoName (e : Env) : Answer string :=
  match env_GITHUB_REPO e with
  | Some r => inr r
  | None =>
      match context_repo e with
      | Some (_, r) => inr r
      | None => inl contextRepoError
      end
  end.

(** [process.env.GITHUB_OWNER ?? github.context.repo.owner] *)
Definition repoOwner (e : Env) : Answer string :=
  match env_GITHUB_OWNER e with
  | Some o => inr o
  | None =>
      match context_repo e with
      | Some (o, _) => inr o
      | None => inl contextRepoError
      end
  end.

(** ** The paginated release fetch, [getReleases] (lines 101-163) *)

Definition pushed_edges (data : option ReleasesPage) : list ReleaseEdge :=
  match data with
  | Some p =>
      match page_edges p with
      | Some es => flat_map (fun e => match e with Some e' => [e'] | None => [] end) es
      | None => []
      end
  | None => []
  end.

(** The [do { ... } while (hasNextPage)] loop.  [fuel] bounds the number of
    iterations; [None] means the fuel ran out before the loop ended.  The
    loop's own result is [inr allEdges], or [inl msg] when a query rejected
    (then [getReleases] rejects too). *)
Fixpoint releases_loop (fuel : nat) (src : ReleaseSource) (currentCursor : option string)
  (allEdges : list ReleaseEdge) : option (list Event * Answer (list ReleaseEdge)) :=
  match fuel with
  | O => None
  | S fuel' =>
      let ev := EvQueryReleases currentCursor in
      let ans := src currentCursor in
      if answer_errors ans then Some ([ev], inl (answer_errorMessage ans))
      else
        let allEdges' := (allEdges ++ pushed_edges (answer_repository ans))%list in
        let cursor' := match answer_repository ans with
                       | Some p => page_endCursor p | None => None end in
        let hasNextPage := match answer_repository ans with
                           | Some p => page_hasNextPage p | None => false end in
        if hasNextPage then
          match releases_loop fuel' src cursor' allEdges' with
          | Some (evs, res) => Some (ev :: evs, res)
          | None => None
          end
        else Some ([ev], inr allEdges')
  end.

Definition to_useful (edge : ReleaseEdge) : list UsefulReleaseData :=
  match edge_node edge with
  | Some n =>
      let nm := match node_name n with Some s => s | None => "" end in
      match extractVersionInfo nm with
      | Some vi =>
          [{| name := nm;
              versionInfo := vi;
              releaseDate := node_updatedAt n;
              tagDate := match node_tagCommit n with
                         | Some t => authoredDate t | None => None (* Date.parse("") *) end;
              sha := match node_tagCommit n with Some t => oid t | None => "" end;
              isDraft := node_isDraft n |}]
      | None => []
      end
  | None => []
  end.

(** [reponame] is evaluated first (line 102); the query sends it along, and
    [releaseSource] gives the answers for that repository. *)
Definition getReleases (fuel : nat) (e : Env)
  : option (list Event * Answer (list UsefulReleaseData)) :=
  match repoName e with
  | inl msg => Some ([], inl msg)
  | inr _ =>
      match releases_loop fuel (releaseSource e) None [] with
      | Some (evs, inr allEdges) => Some (evs, inr (flat_map to_useful allEdges))
      | Some (evs, inl msg) => Some (evs, inl msg)
      | None => None
      end
  end.

(** ** Baseline selection (lines 358-393) *)

(** [Date.parse(d) <= t] *)
Definition date_le (d : DateString) (t : Z) : bool :=
  match d with Some x => x <=? t | None => false end.

(** [a > b] on two parsed dates *)
Definition date_gt (a b : DateString) : bool :=
  match a, b with Some x, Some y => y <? x | _, _ => false end.

Definition zeroBaseline (rt : ReleaseType) : UsefulReleaseData :=
  {| name := "";
     versionInfo := {| major := Num 0; minor := Num 0; patch := Num 0; releaseType := rt;
                       releaseCandidate := None; hash := None |};
     releaseDate := None; tagDate := None; sha := ""; isDraft := false |}.

Definition isProductionCandidate (date : Z) (r : UsefulReleaseData) : bool :=
  (date_le (releaseDate r) date
   && String.eqb (releaseType (versionInfo r)) "production" && negb (isDraft r))%bool.

Definition isDevelopmentCandidate (date : Z) (r : UsefulReleaseData) : bool :=
  (date_le (tagDate r) date
   && String.eqb (releaseType (versionInfo r)) "development" && negb (isDraft r))%bool.

(** [_.find] followed by the synthetic fallback. *)
Definition selectProductionBaseline (releases : list UsefulReleaseData) (date : Z)
  : UsefulReleaseData :=
  match find (isProductionCandidate date) releases with
  | Some r => r
  | None => zeroBaseline "production"
  end.

Definition selectDevelopmentBaseline (releases : list UsefulReleaseData) (date : Z)
  : UsefulReleaseData :=
  match find (isDevelopmentCandidate date) releases with
  | Some r => r
  | None => zeroBaseline "development"
  end.

(** ** The new version (lines 413-478) *)

Definition low (m : string) : string := JS.toLowerCase (JS.trim m).

(** The prefixes tested by the [_.map] over [historyDev] (no colon). *)
Definition patchWord (m : string) : bool :=
  (JS.startsWith (low m) "fix" || JS.startsWith (low m) "chore"
   || JS.startsWith (low m) "refactor" || JS.startsWith (low m) "task")%bool.

Definition minorWord (m : string) : bool := JS.startsWith (low m) "feat".

Definition majorWord (m : string) : bool := JS.startsWith (low m) "breaking".

(** The body of the [_.map] callback on the flags
    [(hasPatch, hasMinor, hasMajor)]. *)
Definition bumpStep (flags : bool * bool * bool) (m : string) : bool * bool * bool :=
  let '(hasPatch, hasMinor, hasMajor) := flags in
  let hasPatch := if patchWord m then true else hasPatch in
  let hasMinor := if minorWord m then true else hasMinor in
  let hasMajor := if majorWord m then true else hasMajor in
  (hasPatch, hasMinor, hasMajor).

Definition bumpFlags (historyDev : list string) : bool * bool * bool :=
  fold_left bumpStep historyDev (false, false, false).

(** [newMajor++; newMinor = 0; ...] on the numbers of the baseline. *)
Definition bump (old : number * number * number) (flags : bool * bool * bool)
  : number * number * number :=
  let '(oldMajor, oldMinor, oldPatch) := old in
  let '(hasPatch, hasMinor, hasMajor) := flags in
  if hasMajor then (JS.incr oldMajor, Num 0, Num 0)
  else if hasMinor then (oldMajor, JS.incr oldMinor, Num 0)
  else if hasPatch then (oldMajor, oldMinor, JS.incr oldPatch)
  else (oldMajor, oldMinor, oldPatch).

Definition triple (vi : VersionInfo) : number * number * number :=
  (major vi, minor vi, patch vi).

(** [`v${major}.${minor}.${patch}`] *)
Definition versionString (t : number * number * number) : string :=
  let '(a, b, c) := t in
  "v" ++ JS.number_toString a ++ "." ++ JS.number_toString b ++ "."
  ++ JS.number_toString c.

(** The releases counted by [numberRcsSinceProdRelease]. *)
Definition isRcSince (lastProductionRelease : UsefulReleaseData) (date : Z)
  (release : UsefulReleaseData) : bool :=
  match extractVersionInfo (name release) with
  | Some vi =>
      (String.eqb (releaseType vi) "rc"
       && date_gt (releaseDate release) (releaseDate lastProductionRelease)
       && date_le (releaseDate release) (date + 1))%bool
  | None => false
  end.

(** The TypeError of [github.context.sha.substring(0, 7)] when
    [github.context.sha] is undefined. *)
Definition undefinedSubstring : string :=
  "Cannot read properties of undefined (reading 'substring')".

(** [(newVersion, metadata)] *)
Definition computeVersion (releaseType : ReleaseType) (releases : list UsefulReleaseData)
  (lastDevRelease lastProductionRelease : UsefulReleaseData)
  (historyDev : list string) (date : Z) (GITHUB_SHA : string) (context_sha : option string)
  : Answer (string * string) :=
  let newVersion := versionString (triple (versionInfo lastDevRelease)) in
  if String.eqb releaseType "development" then
    inr (versionString (bump (triple (versionInfo lastDevRelease)) (bumpFlags historyDev)),
         "-development+" ++ JS.substring0 GITHUB_SHA 7)
  else if String.eqb releaseType "rc" then
    let numberRcsSinceProdRelease := filter (isRcSince lastProductionRelease date) releases in
    match context_sha with
    | None => inl undefinedSubstring
    | Some ctx =>
        inr (newVersion,
             "-rc." ++ JS.number_toString
                         (JS.double_of_Z (Z.of_nat (List.length numberRcsSinceProdRelease) + 1))
             ++ "+" ++ JS.substring0 ctx 7)
    end
  else inr (newVersion, "").

(** ** [generateChangelog] (lines 165-290) *)

(** [_.chain(messages).filter(m => m.trim().toLowerCase().startsWith(tok))
      .map(m => `- ${m}`).value()] *)
Definition changes (messages : list string) (tok : string) : list string :=
  map (fun m => "- " ++ m) (filter (fun m => JS.startsWith (low m) tok) messages).

(** One [if (guard.length > 0) { changelog += `heading\n${join(body)}\n`;
    any = true; }] block: the guard and the rendered list are separate
    arguments because the Tasks blocks of the source test one list and
    render another. *)
Definition section (acc : string * bool) (heading : string) (guard body : list string)
  : string * bool :=
  if Nat.ltb 0 (List.length guard)
  then (fst acc ++ heading ++ JS.nl ++ JS.join body JS.nl ++ JS.nl, true)
  else acc.

(** The six blocks and the fallback line, appended to [changelog]. *)
Definition sections (changelog : string) (messages : list string) : string :=
  let major := changes messages "breaking:" in
  let minor := changes messages "feat:" in
  let fixes := changes messages "fix:" in
  let chore := changes messages "chore:" in
  let task := changes messages "task:" in
  let refactor := changes messages "refactor:" in
  let acc := (changelog, false) in
  let acc := section acc "## Breaking Changes" major major in
  let acc := section acc "### New Features" minor minor in
  let acc := section acc "### Bug Fixes" fixes fixes in
  let acc := section acc "### Chores" chore chore in
  let acc := section acc "### Tasks" task chore in
  let acc := section acc "### Refactors" refactor refactor in
  if snd acc then fst acc
  else fst acc ++ "General bug fixes and improvements" ++ JS.nl.

Definition generateChangelog (releaseType : ReleaseType)
  (devHistoryMessages prodHistoryMessages : list string) : string :=
  let changelog :=
    if String.eqb releaseType "development" then
      sections ("# Changes since last development release" ++ JS.nl ++ JS.nl)
        devHistoryMessages ++ JS.nl
    else "" in
  let changelog :=
    if negb (String.eqb releaseType "production") then
      changelog ++ "# All changes since last production release" ++ JS.nl ++ JS.nl
    else changelog in
  sections changelog prodHistoryMessages.

(** ** [run] (lines 292-546) *)

(** [!x] on an optional string: undefined and "" are falsy. *)
Definition falsy (x : option string) : bool :=
  match x with None => true | Some s => String.eqb s "" end.

Definition getOr (x : option string) (d : string) : string :=
  match x with Some s => s | None => d end.

(** Write requests awaited one after the other: the first rejection ends
    the run in the [run().catch] handler. *)
Fixpoint requests (e : Env) (reqs : list Event) : list Event :=
  match reqs with
  | [] => []
  | r :: rs =>
      r :: match writeFails e r with
           | Some msg => [catchFailure msg]
           | None => requests e rs
           end
  end.

(** Everything after the release fetch (lines 348-543). *)
Definition run_after_releases (e : Env) (GITHUB_SHA : string) (releaseType : ReleaseType)
  (targetBranch : string) (isDryRun : bool) (releases : list UsefulReleaseData)
  : list Event :=
  match repoOwner e, repoName e with
  | inl msg, _ => [catchFailure msg]
  | inr _, inl msg => [catchFailure msg]
  | inr _, inr _ =>
  EvGetCommit GITHUB_SHA ::
  match getCommit e GITHUB_SHA with
  | inl msg => [catchFailure msg]
  | inr date =>
      let lastProductionRelease := selectProductionBaseline releases date in
      let lastDevRelease := selectDevelopmentBaseline releases date in
      EvCompareCommits (sha lastDevRelease) GITHUB_SHA ::
      match compareCommits e (sha lastDevRelease) GITHUB_SHA with
      | inl msg => [catchFailure msg]
      | inr historyDev =>
          EvCompareCommits (sha lastProductionRelease) GITHUB_SHA ::
          match compareCommits e (sha lastProductionRelease) GITHUB_SHA with
          | inl msg => [catchFailure msg]
          | inr historyProd =>
              match computeVersion releaseType releases lastDevRelease lastProductionRelease
                      historyDev date GITHUB_SHA (context_sha e) with
              | inl msg => [catchFailure msg]
              | inr (newVersion, metadata) =>
                  let completeVersionString := newVersion ++ metadata in
                  let normalisedVersionString :=
                    JS.replace_first "+"%char "-" completeVersionString in
                  let changelog := generateChangelog releaseType historyDev historyProd in
                  [EvSetOutput "version" completeVersionString;
                   EvSetOutput "normalisedVersion" normalisedVersionString;
                   EvSetOutput "versionNumber" (JS.replace_first "v"%char "" newVersion)]
                  ++ (if isDryRun then []
                      else
                        (* [...github.context.repo] in the createTag arguments *)
                        match context_repo e with
                        | None => [catchFailure contextRepoError]
                        | Some _ =>
                            requests e
                              [EvCreateTag completeVersionString;
                               EvCreateRef ("refs/tags/" ++ completeVersionString);
                               EvCreateRelease completeVersionString changelog
                                 (negb (String.eqb releaseType "production"));
                               EvSlackUpload changelog]
                        end)
              end
          end
      end
  end
  end.

(** [None] only when [fuel] iterations of the release loop did not suffice. *)
Definition run (fuel : nat) (e : Env) : option (list Event) :=
  let isDryRun := match env_DRY_RUN e with Some s => String.eqb s "true" | None => false end in
  if falsy (env_GITHUB_REF e) then Some [EvSetFailed "Missing GITHUB_REF"]
  else if falsy (env_GITHUB_SHA e) then Some [EvSetFailed "Missing GITHUB_SHA"]
  else
    let GITHUB_SHA := getOr (env_GITHUB_SHA e) "" in
    let GITHUB_TOKEN := getOr (env_GITHUB_TOKEN e) (input_github_token e) in
    if String.eqb GITHUB_TOKEN "" then Some [EvSetFailed "Missing GITHUB_TOKEN"]
    else
      (* [?? "development"] never applies: [core.getInput] is never undefined *)
      let releaseType := getOr (env_RELEASE_TYPE e) (input_release_type e) in
      let targetBranch :=
        if String.eqb releaseType "rc" then "qa"
        else if String.eqb releaseType "production" then "production"
        else "development" in
      match getReleases fuel e with
      | None => None
      | Some (evs, inl msg) => Some (evs ++ [catchFailure msg])%list
      | Some (evs, inr releases) =>
          Some (evs ++ run_after_releases e GITHUB_SHA releaseType targetBranch
                         isDryRun releases)%list
      end.

(** ** Readings of the specification

    These definitions follow the words of the specification, not the
    source; they are compared with the embedding above. *)

Module SpecReading.

Inductive ChangeCategory := Breaking | Feature | Fix | Chore | Task | Refactor.

(** CommitClassifier: trimmed, lower-cased, literal prefixes with colon. *)
Definition classify (m : string) : option ChangeCategory :=
  let l := low m in
  if JS.startsWith l "breaking:" then Some Breaking
  else if JS.startsWith l "feat:" then Some Feature
  else if JS.startsWith l "fix:" then Some Fix
  else if JS.startsWith l "chore:" then Some Chore
  else if JS.startsWith l "task:" then Some Task
  else if JS.startsWith l "refactor:" then Some Refactor
  else None.

Definition is_cat (c : ChangeCategory) (m : string) : bool :=
  match classify m, c with
  | Some Breaking, Breaking | Some Feature, Feature => true
  | Some (Fix | Chore | Task | Refactor), (Fix | Chore | Task | Refactor) => true
  | _, _ => false
  end.

(** The bump rule of VersionBumpCalculator, step 1, on integers. *)
Definition bump (t : Z * Z * Z) (msgs : list string) : Z * Z * Z :=
  let '(M, m, p) := t in
  if existsb (is_cat Breaking) msgs then (M + 1, 0, 0)
  else if existsb (is_cat Feature) msgs then (M, m + 1, 0)
  else if existsb (is_cat Fix) msgs then (M, m, p + 1)
  else (M, m, p).

(** The rc ordinal: 1 + the rc releases dated strictly after the
    production baseline and no later than the triggering timestamp. *)
Definition rcOrdinal (releases : list UsefulReleaseData) (prodDate : DateString) (date : Z)
  : Z :=
  1 + Z.of_nat (List.length (filter (fun r =>
        (String.eqb (releaseType (versionInfo r)) "rc"
         && date_gt (releaseDate r) prodDate && date_le (releaseDate r) date)%bool)
        releases)).

End SpecReading.

(** ** Properties *)

Section Numbers.

(** Below 2^53 every integer is a Number of its own. *)
Lemma double_of_Z_small (m : Z) : m < 2 ^ 53 -> JS.double_of_Z m = Num m.
Proof. intro H; unfold JS.double_of_Z; apply Z.ltb_lt in H; now rewrite H. Qed.

(** From 2^53 on, the rounding stays at or above 2^53. *)
Lemma double_of_Z_large (m : Z) :
  2 ^ 53 <= m ->
  JS.double_of_Z m = Infinity \/ exists v, JS.double_of_Z m = Num v /\ 2 ^ 53 <= v.
Proof.
  intro H; unfold JS.double_of_Z.
  destruct (Z.ltb_spec m (2 ^ 53)) as [H'|_]; [ lia | ].
  assert (Hl : 53 <= Z.log2 m).
  { change 53 with (Z.log2 (2 ^ 53)); now apply Z.log2_le_mono. }
  set (sh := Z.log2 m - 52).
  assert (Hq : 2 ^ 52 <= Z.shiftr m sh).
  { rewrite Z.shiftr_div_pow2 by lia.
    apply Z.div_le_lower_bound; [ apply Z.pow_pos_nonneg; lia | ].
    rewrite <- Z.pow_add_r by lia.
    replace (sh + 52) with (Z.log2 m) by (unfold sh; lia).
    apply Z.log2_spec; lia. }
  set (q := Z.shiftr m sh) in *.
  match goal with |- context [Z.shiftl (if ?b then q + 1 else q) sh] =>
    set (q' := if b then q + 1 else q) end.
  assert (Hq' : q <= q') by (unfold q'; destruct (_ || _)%bool; lia).
  assert (Hv : 2 ^ 53 <= Z.shiftl q' sh).
  { rewrite Z.shiftl_mul_pow2 by lia.
    replace (2 ^ 53) with (2 ^ 52 * 2 ^ 1) by reflexivity.
    apply Z.mul_le_mono_nonneg; try lia.
    apply Z.pow_le_mono_r; lia. }
  destruct (Z.shiftl q' sh <? 2 ^ 1024);
    [ right; eexists; split; [ reflexivity | exact Hv ] | now left ].
Qed.

Lemma double_of_Z_safe_inj (m z : Z) : z < 2 ^ 53 -> JS.double_of_Z m = Num z -> m = z.
Proof.
  intros Hz H; destruct (Z.ltb_spec m (2 ^ 53)) as [Hm|Hm].
  - rewrite double_of_Z_small in H by exact Hm; congruence.
  - destruct (double_of_Z_large m Hm) as [E|[v [E Hv]]]; rewrite E in H; [ discriminate | ].
    injection H as ->; lia.
Qed.

Lemma number_eqb_Num (a : number) (x : Z) : JS.number_eqb a (Num x) = true -> a = Num x.
Proof. destruct a; simpl; [ intro H; apply Z.eqb_eq in H; congruence | discriminate ]. Qed.

Lemma pick_spec (x j s : Z) :
  JS.pick x j = Some s -> 0 < s /\ JS.double_of_Z (s * 10 ^ j) = Num x.
Proof.
  unfold JS.pick; cbv zeta.
  destruct ((0 <? x / 10 ^ j) && JS.number_eqb (JS.double_of_Z (x / 10 ^ j * 10 ^ j)) (Num x))%bool
    eqn:E1;
  destruct ((0 <? x / 10 ^ j + 1)
            && JS.number_eqb (JS.double_of_Z ((x / 10 ^ j + 1) * 10 ^ j)) (Num x))%bool eqn:E2;
  apply andb_prop in E1 || idtac; apply andb_prop in E2 || idtac;
  repeat match goal with H : _ /\ _ |- _ => destruct H end;
  repeat match goal with H : (_ <? _) = true |- _ => apply Z.ltb_lt in H end;
  repeat match goal with H : JS.number_eqb _ _ = true |- _ => apply number_eqb_Num in H end;
  try discriminate;
  repeat match goal with |- context [if ?b then _ else _] => destruct b end;
  intro Hr; injection Hr as <-; split; assumption.
Qed.

Lemma shortest_spec (x : Z) (j : nat) :
  let '(s, jj) := JS.shortest x j in
  (0 < s /\ 0 <= jj /\ JS.double_of_Z (s * 10 ^ jj) = Num x) \/ (s = x /\ jj = 0).
Proof.
  induction j as [|j IH]; simpl.
  - destruct (JS.pick x 0) as [s|] eqn:E; [ | now right ].
    apply pick_spec in E as [E1 E2]; left; repeat split; [ exact E1 | lia | exact E2 ].
  - destruct (JS.pick x (Z.pos (Pos.of_succ_nat j))) as [s|] eqn:E; [ | exact IH ].
    apply pick_spec in E as [E1 E2]; left; repeat split; [ exact E1 | lia | exact E2 ].
Qed.

(** A safe integer prints as its decimal digits. *)
Lemma toString_safe (z : Z) : 0 <= z < 2 ^ 53 -> JS.number_toString (Num z) = JS.decimal z.
Proof.
  intro Hz; unfold JS.number_toString.
  destruct (Z.eqb_spec z 0) as [->|Hz0]; [ reflexivity | ].
  pose proof (shortest_spec z (String.length (JS.decimal z))) as Hs.
  destruct (JS.shortest z _) as [s jj].
  assert (E : s * 10 ^ jj = z).
  { destruct Hs as [(Hs & Hj & H)|[-> ->]]; [ | lia ].
    apply double_of_Z_safe_inj in H; lia. }
  rewrite E; destruct (Z.ltb_spec z (10 ^ 21)) as [_|H]; [ reflexivity | ].
  exfalso; assert (2 ^ 53 < 10 ^ 21) by reflexivity; lia.
Qed.

(** [x++] is exact up to 2^53. *)
Lemma incr_safe (a : Z) : a < 2 ^ 53 -> JS.incr (Num a) = Num (a + 1).
Proof.
  intro H; simpl; destruct (Z.ltb_spec (a + 1) (2 ^ 53)) as [H'|H'].
  - now apply double_of_Z_small.
  - replace (a + 1) with (2 ^ 53) by lia; vm_compute; reflexivity.
Qed.

End Numbers.

(** A triple of integers as the Numbers of a version. *)
Definition nums (t : Z * Z * Z) : number * number * number :=
  let '(a, b, c) := t in (Num a, Num b, Num c).

Section Bump.

Lemma bumpStep_fold (l : list string) (p m M : bool) :
  fold_left bumpStep l (p, m, M) =
  ((p || existsb patchWord l)%bool, (m || existsb minorWord l)%bool,
   (M || existsb majorWord l)%bool).
Proof.
  revert p m M; induction l as [|x l IH]; intros p m M; simpl.
  - now rewrite !orb_false_r.
  - rewrite IH.
    destruct (patchWord x), (minorWord x), (majorWord x), p, m, M; reflexivity.
Qed.

Lemma bumpFlags_existsb (l : list string) :
  bumpFlags l = (existsb patchWord l, existsb minorWord l, existsb majorWord l).
Proof. unfold bumpFlags; now rewrite bumpStep_fold. Qed.

(** A message that starts with none of the words leaves the flags alone. *)
Lemma bumpFlags_skip (l1 l2 : list string) (m : string) :
  patchWord m = false -> minorWord m = false -> majorWord m = false ->
  bumpFlags (l1 ++ m :: l2) = bumpFlags (l1 ++ l2).
Proof.
  intros Hp Hm HM; rewrite !bumpFlags_existsb, !existsb_app; simpl.
  now rewrite Hp, Hm, HM.
Qed.

End Bump.

(** The version a development run computes from the baseline triple, on
    integers. *)
Definition devBumpRule (t : Z * Z * Z) (historyDev : list string) : Z * Z * Z :=
  let '(M, m, p) := t in
  if existsb majorWord historyDev then (M + 1, 0, 0)
  else if existsb minorWord historyDev then (M, m + 1, 0)
  else if existsb patchWord historyDev then (M, m, p + 1)
  else (M, m, p).

(** Lexicographic order on version triples. *)
Definition lex_ge (a b : Z * Z * Z) : Prop :=
  let '(a1, a2, a3) := a in
  let '(b1, b2, b3) := b in
  a1 > b1 \/ (a1 = b1 /\ (a2 > b2 \/ (a2 = b2 /\ a3 >= b3))).

(** On safe integers the bump on Numbers is the bump on integers. *)
Lemma bump_safe (M m p : Z) (historyDev : list string) :
  M < 2 ^ 53 -> m < 2 ^ 53 -> p < 2 ^ 53 ->
  bump (Num M, Num m, Num p) (bumpFlags historyDev) = nums (devBumpRule (M, m, p) historyDev).
Proof.
  intros HM Hm Hp; rewrite bumpFlags_existsb; unfold bump, devBumpRule.
  destruct (existsb majorWord historyDev); [ rewrite incr_safe by exact HM; reflexivity | ].
  destruct (existsb minorWord historyDev); [ rewrite incr_safe by exact Hm; reflexivity | ].
  destruct (existsb patchWord historyDev); [ rewrite incr_safe by exact Hp | ]; reflexivity.
Qed.

Lemma computeVersion_development
  (releases : list UsefulReleaseData) (lastDev lastProd : UsefulReleaseData)
  (historyDev : list string) (date : Z) (GITHUB_SHA : string) (ctx : option string)
  (M m p : Z) :
  triple (versionInfo lastDev) = (Num M, Num m, Num p) ->
  M < 2 ^ 53 -> m < 2 ^ 53 -> p < 2 ^ 53 ->
  computeVersion "development" releases lastDev lastProd historyDev date GITHUB_SHA ctx =
  inr (versionString (nums (devBumpRule (M, m, p) historyDev)),
       "-development+" ++ JS.substring0 GITHUB_SHA 7).
Proof.
  intros Ht HM Hm Hp; unfold computeVersion; cbv zeta.
  change (String.eqb "development" "development") with true; cbv iota.
  rewrite Ht, bump_safe by assumption; reflexivity.
Qed.

(** C1 (amended).  On the development channel, when the development
    baseline's major, minor and patch are integers below 2^53, the new
    version is that triple bumped as follows, where a commit counts when its
    trimmed, lower-cased message starts with the word (no colon needed): any
    [breaking] commit increments major and resets minor and patch; else any
    [feat] commit increments minor and resets patch; else any [fix],
    [chore], [refactor] or [task] commit increments patch; else the triple is
    unchanged.  The suffix is [-development+] and the first seven characters
    of the commit hash. *)
Theorem development_version_bump :
  forall (releases : list UsefulReleaseData) (lastDev lastProd : UsefulReleaseData)
         (historyDev : list string) (date : Z) (GITHUB_SHA : string) (ctx : option string)
         (M m p : Z),
  triple (versionInfo lastDev) = (Num M, Num m, Num p) ->
  M < 2 ^ 53 -> m < 2 ^ 53 -> p < 2 ^ 53 ->
  computeVersion "development" releases lastDev lastProd historyDev date GITHUB_SHA ctx =
  inr (versionString (nums (devBumpRule (M, m, p) historyDev)),
       "-development+" ++ JS.substring0 GITHUB_SHA 7).
Proof. intros; now apply computeVersion_development. Qed.

Definition baseline123 : UsefulReleaseData :=
  {| name := "v1.2.3-development+abc";
     versionInfo := {| major := Num 1; minor := Num 2; patch := Num 3;
                       releaseType := "development"; releaseCandidate := None;
                       hash := Some "abc" |};
     releaseDate := Some 10000; tagDate := Some 10000; sha := "abc"; isDraft := false |}.

(** A development baseline at major 2^53, the first integer whose
    successor is not a Number. *)
Definition bigBaseline : UsefulReleaseData :=
  {| name := "v9007199254740992.5.5-development+abc";
     versionInfo := {| major := Num (2 ^ 53); minor := Num 5; patch := Num 5;
                       releaseType := "development"; releaseCandidate := None;
                       hash := Some "abc" |};
     releaseDate := Some 10000; tagDate := Some 10000; sha := "abc"; isDraft := false |}.

(** A catalog entry carries the parse of its own name. *)
Definition catalog_entry (r : UsefulReleaseData) : Prop :=
  extractVersionInfo (name r) = Some (versionInfo r).

Lemma development_version_bump_witness :
  computeVersion "development" [] baseline123 (zeroBaseline "production") ["feat: x"] 100000
    "abcdef1234" (Some "abcdef1234") =
  inr (versionString (nums (devBumpRule (1, 2, 3) ["feat: x"])),
       "-development+" ++ JS.substring0 "abcdef1234" 7).
Proof.
  apply (development_version_bump [] baseline123 (zeroBaseline "production") ["feat: x"]
           100000 "abcdef1234" (Some "abcdef1234") 1 2 3); first [ reflexivity | lia ].
Defined.

(** C1 (counterexample).  "fixed typo" classifies as nothing, so the
    specified rule leaves [v1.2.3] unchanged; the code bumps the patch.
    And a baseline named [v9007199254740992.5.5-development+abc] with a
    [breaking: x] commit gives [v9007199254740992.0.0]: [newMajor++] on
    2^53 is 2^53 again, where the specified rule increments the major. *)
Lemma development_bump_counterexample :
  SpecReading.classify "fixed typo" = None /\
  versionString (nums (SpecReading.bump (1, 2, 3) ["fixed typo"])) = "v1.2.3" /\
  computeVersion "development" [] baseline123 (zeroBaseline "production")
    ["fixed typo"] 100000 "abcdef1234" (Some "abcdef1234") =
    inr ("v1.2.4", "-development+abcdef1") /\
  catalog_entry bigBaseline /\
  SpecReading.bump (2 ^ 53, 5, 5) ["breaking: x"] = (2 ^ 53 + 1, 0, 0) /\
  computeVersion "development" [] bigBaseline (zeroBaseline "production")
    ["breaking: x"] 100000 "abcdef1234" (Some "abcdef1234") =
    inr ("v9007199254740992.0.0", "-development+abcdef1").
Proof. vm_compute. repeat split. Qed.

(** C10 (amended).  On the development channel, when the development
    baseline's major, minor and patch are integers below 2^53, the computed
    triple is the baseline's with major incremented and the rest reset, or
    minor incremented and patch reset, or patch incremented, or unchanged;
    hence it is lexicographically at least the baseline's. *)
Theorem development_version_monotone :
  forall (releases : list UsefulReleaseData) (lastDev lastProd : UsefulReleaseData)
         (historyDev : list string) (date : Z) (GITHUB_SHA : string) (ctx : option string)
         (M m p : Z),
  triple (versionInfo lastDev) = (Num M, Num m, Num p) ->
  M < 2 ^ 53 -> m < 2 ^ 53 -> p < 2 ^ 53 ->
  exists t md,
    computeVersion "development" releases lastDev lastProd historyDev date GITHUB_SHA ctx
      = inr (versionString (nums t), md) /\
    lex_ge t (M, m, p) /\
    (t = (M + 1, 0, 0) \/ t = (M, m + 1, 0) \/ t = (M, m, p + 1) \/ t = (M, m, p)).
Proof.
  intros releases lastDev lastProd historyDev date sha ctx M m p Ht HM Hm Hp.
  exists (devBumpRule (M, m, p) historyDev), ("-development+" ++ JS.substring0 sha 7).
  rewrite (computeVersion_development _ _ _ _ _ _ _ M m p Ht HM Hm Hp).
  split; [ reflexivity | ]. unfold devBumpRule, lex_ge.
  destruct (existsb majorWord historyDev); [split; [lia | tauto]|].
  destruct (existsb minorWord historyDev); [split; [lia | tauto]|].
  destruct (existsb patchWord historyDev); split; try lia; tauto.
Qed.

Lemma development_version_monotone_witness :
  exists t md,
    computeVersion "development" [] baseline123 (zeroBaseline "production") ["feat: x"]
      100000 "abcdef1234" (Some "abcdef1234") = inr (versionString (nums t), md) /\
    lex_ge t (1, 2, 3) /\
    (t = (1 + 1, 0, 0) \/ t = (1, 2 + 1, 0) \/ t = (1, 2, 3 + 1) \/ t = (1, 2, 3)).
Proof.
  apply (development_version_monotone [] baseline123 (zeroBaseline "production") ["feat: x"]
           100000 "abcdef1234" (Some "abcdef1234") 1 2 3); first [ reflexivity | lia ].
Defined.

(** C10 (counterexample).  From the baseline [v9007199254740992.5.5] a
    [breaking: x] commit gives the triple (2^53, 0, 0), lexicographically
    below the baseline's (2^53, 5, 5). *)
Lemma development_monotone_counterexample :
  catalog_entry bigBaseline /\
  triple (versionInfo bigBaseline) = nums (2 ^ 53, 5, 5) /\
  bump (triple (versionInfo bigBaseline)) (bumpFlags ["breaking: x"]) = nums (2 ^ 53, 0, 0) /\
  computeVersion "development" [] bigBaseline (zeroBaseline "production")
    ["breaking: x"] 100000 "abcdef1234" (Some "abcdef1234") =
    inr (versionString (nums (2 ^ 53, 0, 0)), "-development+abcdef1") /\
  ~ lex_ge (2 ^ 53, 0, 0) (2 ^ 53, 5, 5).
Proof.
  split; [ vm_compute; reflexivity | ].
  split; [ reflexivity | ].
  split; [ vm_compute; reflexivity | ].
  split; [ vm_compute; reflexivity | ].
  unfold lex_ge; lia.
Qed.

Section Classification.

(** The changelog's literal tokens, colon included. *)
Definition changelogToken (m : string) : bool :=
  existsb (JS.startsWith (low m))
    ["breaking:"; "feat:"; "fix:"; "chore:"; "task:"; "refactor:"].

(** The bump decision's words, no colon. *)
Definition bumpWord (m : string) : bool :=
  (patchWord m || minorWord m || majorWord m)%bool.

Lemma changes_skip (l1 l2 : list string) (m tok : string) :
  JS.startsWith (low m) tok = false ->
  changes (l1 ++ m :: l2) tok = changes (l1 ++ l2) tok.
Proof.
  intros H. unfold changes. rewrite !filter_app. simpl. now rewrite H.
Qed.

Lemma sections_skip (c : string) (l1 l2 : list string) (m : string) :
  changelogToken m = false ->
  sections c (l1 ++ m :: l2) = sections c (l1 ++ l2).
Proof.
  intros H. unfold changelogToken in H. simpl in H.
  repeat rewrite orb_false_iff in H.
  destruct H as [H1 [H2 [H3 [H4 [H5 [H6 _]]]]]].
  unfold sections.
  rewrite (changes_skip _ _ _ _ H1), (changes_skip _ _ _ _ H2),
    (changes_skip _ _ _ _ H3), (changes_skip _ _ _ _ H4),
    (changes_skip _ _ _ _ H5), (changes_skip _ _ _ _ H6).
  reflexivity.
Qed.

End Classification.

(** C4 (amended).  A commit message that, trimmed and lower-cased, starts
    with none of [breaking:], [feat:], [fix:], [chore:], [task:],
    [refactor:] does not change the changelog, in either commit range; a
    message that starts with none of the words [breaking], [feat], [fix],
    [chore], [task], [refactor] (colon not required) does not change the
    computed version. *)
Theorem unclassified_commit_ignored :
  forall m : string,
  (changelogToken m = false ->
   forall (rt : ReleaseType) (l1 l2 other : list string),
     generateChangelog rt (l1 ++ m :: l2) other = generateChangelog rt (l1 ++ l2) other /\
     generateChangelog rt other (l1 ++ m :: l2) = generateChangelog rt other (l1 ++ l2)) /\
  (bumpWord m = false ->
   forall (rt : ReleaseType) (releases : list UsefulReleaseData)
          (lastDev lastProd : UsefulReleaseData) (l1 l2 : list string)
          (date : Z) (GITHUB_SHA : string) (ctx : option string),
     computeVersion rt releases lastDev lastProd (l1 ++ m :: l2) date GITHUB_SHA ctx =
     computeVersion rt releases lastDev lastProd (l1 ++ l2) date GITHUB_SHA ctx).
Proof.
  intros m. split.
  - intros H rt l1 l2 other. unfold generateChangelog.
    now rewrite !(sections_skip _ _ _ _ H).
  - intros H rt releases lastDev lastProd l1 l2 date sha ctx.
    unfold bumpWord in H. apply orb_false_iff in H as [H HM].
    apply orb_false_iff in H as [Hp Hm].
    unfold computeVersion. now rewrite (bumpFlags_skip _ _ _ Hp Hm HM).
Qed.

Lemma unclassified_commit_ignored_witness :
  changelogToken "docs: readme" = false /\ bumpWord "docs: readme" = false /\
  generateChangelog "development" ["feat: a"; "docs: readme"] [] =
  generateChangelog "development" ["feat: a"] [] /\
  computeVersion "development" [] baseline123 (zeroBaseline "production")
    ([] ++ "docs: readme" :: []) 100000 "abcdef1234" (Some "abcdef1234") =
  computeVersion "development" [] baseline123 (zeroBaseline "production")
    ([] ++ []) 100000 "abcdef1234" (Some "abcdef1234").
Proof.
  assert (Hc : changelogToken "docs: readme" = false) by reflexivity.
  assert (Hb : bumpWord "docs: readme" = false) by reflexivity.
  split; [exact Hc|]. split; [exact Hb|]. split.
  - exact (proj1 (proj1 (unclassified_commit_ignored "docs: readme") Hc
                    "development" ["feat: a"] [] [])).
  - exact (proj2 (unclassified_commit_ignored "docs: readme") Hb "development" []
             baseline123 (zeroBaseline "production") [] [] 100000 "abcdef1234"
             (Some "abcdef1234")).
Defined.

(** C4 (counterexample).  "breaking change in api" starts with none of the
    literal tokens, yet it makes a development run bump the major number. *)
Lemma unclassified_commit_counterexample :
  SpecReading.classify "breaking change in api" = None /\
  changelogToken "breaking change in api" = false /\
  computeVersion "development" [] baseline123 (zeroBaseline "production")
    ["breaking change in api"] 100000 "abcdef1234" (Some "abcdef1234") =
    inr ("v2.0.0", "-development+abcdef1") /\
  computeVersion "development" [] baseline123 (zeroBaseline "production")
    [] 100000 "abcdef1234" (Some "abcdef1234") =
    inr ("v1.2.3", "-development+abcdef1").
Proof. vm_compute. repeat split. Qed.

Section Catalog.

Lemma to_useful_entry (e : ReleaseEdge) : Forall catalog_entry (to_useful e).
Proof.
  unfold to_useful. destruct (edge_node e) as [n|]; [|constructor].
  destruct (extractVersionInfo _) eqn:E; constructor; [exact E | constructor].
Qed.

Lemma getReleases_catalog (fuel : nat) (e : Env) evs rs :
  getReleases fuel e = Some (evs, inr rs) -> Forall catalog_entry rs.
Proof.
  unfold getReleases.
  destruct (repoName e); [ discriminate | ].
  destruct (releases_loop fuel (releaseSource e) None []) as [[evs' [msg|edges]]|];
    intros H; inversion H; subst; clear H.
  apply Forall_forall. intros r Hr. apply in_flat_map in Hr as [ed [_ Hed]].
  exact (proj1 (Forall_forall _ _) (to_useful_entry ed) r Hed).
Qed.

End Catalog.

(** GitHub's timestamps have whole seconds: [Date.parse] of them is a
    multiple of 1000. *)
Definition whole_seconds (d : DateString) : Prop :=
  match d with Some t => t mod 1000 = 0 | None => True end.

Lemma le_succ_whole (t d : Z) :
  t mod 1000 = 0 -> d mod 1000 = 0 -> (t <=? d + 1) = (t <=? d).
Proof.
  intros Ht Hd.
  destruct (Z.leb_spec t (d + 1)), (Z.leb_spec t d); try reflexivity; try lia.
  assert (t = d + 1) by lia; subst t.
  rewrite Z.add_mod in Ht by lia; rewrite Hd in Ht; simpl in Ht; discriminate.
Qed.

Lemma filter_length_le {A} (f : A -> bool) (l : list A) :
  (List.length (filter f l) <= List.length l)%nat.
Proof. induction l as [|a l IH]; simpl; [ lia | destruct (f a); simpl; lia ]. Qed.

(** C2.  On the rc channel the version number is the development
    baseline's triple verbatim, and the suffix is [-rc.<n>+] followed by the
    first seven characters of the commit hash, where [n] is 1 plus the
    number of catalog releases of type rc dated strictly after the
    production baseline and no later than the triggering timestamp.  This
    holds when the dates are whole seconds, as GitHub gives them (the code's
    [date + 1] then changes nothing), and the catalog has fewer than 2^53 - 1
    releases. *)
Theorem rc_version :
  forall (releases : list UsefulReleaseData) (lastDev lastProd : UsefulReleaseData)
         (historyDev : list string) (date : Z) (GITHUB_SHA ctx : string),
  Forall catalog_entry releases ->
  Forall (fun r => whole_seconds (releaseDate r)) releases ->
  date mod 1000 = 0 ->
  Z.of_nat (List.length releases) < 2 ^ 53 - 1 ->
  computeVersion "rc" releases lastDev lastProd historyDev date GITHUB_SHA (Some ctx) =
  inr (versionString (triple (versionInfo lastDev)),
       "-rc." ++ JS.decimal (SpecReading.rcOrdinal releases (releaseDate lastProd) date)
       ++ "+" ++ JS.substring0 ctx 7).
Proof.
  intros releases lastDev lastProd historyDev date sha ctx Hcat Hsec Hdate Hlen.
  assert (Hf : filter (isRcSince lastProd date) releases =
               filter (fun r =>
                 (String.eqb (releaseType (versionInfo r)) "rc"
                  && date_gt (releaseDate r) (releaseDate lastProd)
                  && date_le (releaseDate r) date)%bool) releases).
  { apply filter_ext_in. intros r Hr.
    pose proof (proj1 (Forall_forall _ _) Hcat r Hr) as E. unfold catalog_entry in E.
    pose proof (proj1 (Forall_forall _ _) Hsec r Hr) as W.
    unfold isRcSince. rewrite E. unfold date_le.
    destruct (releaseDate r) as [tm|] eqn:Ed; [ | reflexivity ].
    cbv beta in W; unfold whole_seconds in W; rewrite Ed in W.
    simpl in W |- *; rewrite (le_succ_whole tm date W Hdate); reflexivity. }
  unfold computeVersion. change (String.eqb "rc" "development") with false.
  change (String.eqb "rc" "rc") with true. cbv iota beta zeta.
  rewrite Hf. unfold SpecReading.rcOrdinal.
  pose proof (filter_length_le (fun r =>
                 (String.eqb (releaseType (versionInfo r)) "rc"
                  && date_gt (releaseDate r) (releaseDate lastProd)
                  && date_le (releaseDate r) date)%bool) releases) as Hle.
  rewrite double_of_Z_small by lia.
  rewrite toString_safe by lia.
  rewrite (Z.add_comm 1). reflexivity.
Qed.

Definition rcRelease : UsefulReleaseData :=
  {| name := "v1.3.0-rc.1+abc";
     versionInfo := {| major := Num 1; minor := Num 3; patch := Num 0; releaseType := "rc";
                       releaseCandidate := Some (Num 1); hash := Some "abc" |};
     releaseDate := Some 5000; tagDate := Some 4000; sha := "abc"; isDraft := false |}.

Definition prodRelease (n : string) (d : Z) : UsefulReleaseData :=
  {| name := n;
     versionInfo := {| major := Num 1; minor := Num 0; patch := Num 0;
                       releaseType := "production"; releaseCandidate := None; hash := None |};
     releaseDate := Some d; tagDate := Some d; sha := n; isDraft := false |}.

Lemma rc_version_witness :
  computeVersion "rc" [rcRelease] baseline123 (prodRelease "v1.0.0" 1000) [] 10000
    "abcdef1234" (Some "abcdef1234") =
  inr (versionString (nums (1, 2, 3)), "-rc.2+abcdef1").
Proof.
  rewrite (rc_version [rcRelease] baseline123 (prodRelease "v1.0.0" 1000) [] 10000
             "abcdef1234" "abcdef1234").
  - vm_compute. reflexivity.
  - repeat constructor; vm_compute; reflexivity.
  - repeat constructor.
  - reflexivity.
  - simpl; lia.
Defined.

Section Selection.

(** [r] is the first element of [l] satisfying [f]. *)
Definition first_qualifying {A} (f : A -> bool) (l : list A) (r : A) : Prop :=
  exists l1 l2, l = (l1 ++ r :: l2)%list /\ f r = true /\ Forall (fun x => f x = false) l1.

Lemma find_first {A} (f : A -> bool) (l : list A) :
  match find f l with
  | Some r => first_qualifying f l r
  | None => Forall (fun x => f x = false) l
  end.
Proof.
  induction l as [|a l IH]; simpl; [constructor|].
  destruct (f a) eqn:Ha.
  - exists [], l. repeat split; auto.
  - destruct (find f l) as [r|].
    + destruct IH as [l1 [l2 [-> [Hr Hl1]]]].
      exists (a :: l1), l2. repeat split; auto.
    + constructor; auto.
Qed.

Lemma find_sorted {A} (R : A -> A -> Prop) (f : A -> bool) (l : list A) (r : A) :
  StronglySorted R l -> find f l = Some r ->
  forall x, In x l -> f x = true -> x = r \/ R r x.
Proof.
  induction l as [|a l IH]; simpl; [discriminate|].
  intros Hs Hf x Hx Hfx. inversion Hs as [|a' l' Hs' Hall]; subst.
  destruct (f a) eqn:Ha.
  - inversion Hf; subst. destruct Hx as [->|Hx]; [now left|].
    right. exact (proj1 (Forall_forall _ _) Hall x Hx).
  - destruct Hx as [->|Hx]; [congruence|]. exact (IH Hs' Hf x Hx Hfx).
Qed.

End Selection.

(** [r1] was updated no earlier than [r2]. *)
Definition newer (r1 r2 : UsefulReleaseData) : Prop :=
  forall b, releaseDate r2 = Some b -> exists a, releaseDate r1 = Some a /\ b <= a.

Lemma newer_refl (r : UsefulReleaseData) : newer r r.
Proof. intros b Hb. exists b. split; [exact Hb | lia]. Qed.

(** C3 (amended).  [selectProductionBaseline] returns the first release in
    catalog order that is of type production, has a release date at or
    before the timestamp and is not a draft, or the synthetic zero
    production baseline when none qualifies; [selectDevelopmentBaseline]
    does the same with type development, the tag date in place of the
    release date, and a zero development baseline.  The catalog is not
    sorted by the code: when it lists releases newest release date first,
    each result is updated no earlier than any release that qualifies. *)
Theorem baseline_selection :
  forall (releases : list UsefulReleaseData) (date : Z),
  (first_qualifying (isProductionCandidate date) releases
     (selectProductionBaseline releases date) \/
   (Forall (fun x => isProductionCandidate date x = false) releases /\
    selectProductionBaseline releases date = zeroBaseline "production")) /\
  (first_qualifying (isDevelopmentCandidate date) releases
     (selectDevelopmentBaseline releases date) \/
   (Forall (fun x => isDevelopmentCandidate date x = false) releases /\
    selectDevelopmentBaseline releases date = zeroBaseline "development")) /\
  (StronglySorted newer releases ->
   forall x, In x releases ->
     (isProductionCandidate date x = true ->
      newer (selectProductionBaseline releases date) x) /\
     (isDevelopmentCandidate date x = true ->
      newer (selectDevelopmentBaseline releases date) x)).
Proof.
  intros releases date.
  pose proof (find_first (isProductionCandidate date) releases) as Hp.
  pose proof (find_first (isDevelopmentCandidate date) releases) as Hd.
  unfold selectProductionBaseline, selectDevelopmentBaseline.
  split; [|split].
  - destruct (find _ releases); [now left | now right].
  - destruct (find (isDevelopmentCandidate date) releases); [now left | now right].
  - intros Hs x Hx. split; intros Hq.
    + destruct (find _ releases) as [r|] eqn:E.
      * destruct (find_sorted newer _ _ r Hs E x Hx Hq) as [->|H];
          [apply newer_refl | exact H].
      * exfalso. pose proof (proj1 (Forall_forall _ _) Hp x Hx). congruence.
    + destruct (find (isDevelopmentCandidate date) releases) as [r|] eqn:E.
      * destruct (find_sorted newer _ _ r Hs E x Hx Hq) as [->|H];
          [apply newer_refl | exact H].
      * exfalso. pose proof (proj1 (Forall_forall _ _) Hd x Hx). congruence.
Qed.

Lemma baseline_selection_witness :
  newer (selectProductionBaseline [prodRelease "v1.1.0" 20; prodRelease "v1.0.0" 10] 100)
        (prodRelease "v1.0.0" 10).
Proof.
  refine (proj1 (proj2 (proj2 (baseline_selection
            [prodRelease "v1.1.0" 20; prodRelease "v1.0.0" 10] 100))
            _ (prodRelease "v1.0.0" 10) _) _).
  - repeat constructor; intros b Hb; inversion Hb; subst; exists 20; split;
      [reflexivity | lia].
  - simpl. right. left. reflexivity.
  - reflexivity.
Defined.

(** C3 (counterexample).  With the catalog in ascending date order, the
    production baseline chosen is the older of two qualifying releases. *)
Lemma baseline_selection_counterexample :
  selectProductionBaseline [prodRelease "v1.0.0" 10; prodRelease "v1.1.0" 20] 100 =
    prodRelease "v1.0.0" 10 /\
  isProductionCandidate 100 (prodRelease "v1.1.0" 20) = true /\
  releaseDate (prodRelease "v1.0.0" 10) = Some 10 /\
  releaseDate (prodRelease "v1.1.0" 20) = Some 20.
Proof. vm_compute. repeat split. Qed.

(** C5 (code bug).  The unescaped [.] of the pattern matches any
    character, and the [i] and [m] flags accept upper-case letters and a
    version on any line of the input: none of these strings follows the
    grammar, yet each one parses. *)
Theorem extractVersionInfo_accepts_off_grammar :
  extractVersionInfo "v1x2x3" =
    Some {| major := Num 1; minor := Num 2; patch := Num 3; releaseType := "production";
            releaseCandidate := None; hash := None |} /\
  extractVersionInfo "V1.2.3-RC.1+ABC" =
    Some {| major := Num 1; minor := Num 2; patch := Num 3; releaseType := "RC";
            releaseCandidate := Some (Num 1); hash := Some "ABC" |} /\
  extractVersionInfo ("notes" ++ JS.nl ++ "v1.2.3") =
    Some {| major := Num 1; minor := Num 2; patch := Num 3; releaseType := "production";
            releaseCandidate := None; hash := None |}.
Proof. vm_compute. repeat split. Qed.

(** C8 (code bug).  The Tasks block is guarded by the task commits but
    renders the chore commits: the task commit is missing and the chore
    commit appears twice. *)
Theorem changelog_tasks_section :
  generateChangelog "production" [] ["chore: c"; "task: t"] =
  "### Chores" ++ JS.nl ++ "- chore: c" ++ JS.nl ++
  "### Tasks" ++ JS.nl ++ "- chore: c" ++ JS.nl.
Proof. vm_compute. reflexivity. Qed.

(** ** Runs *)

(** The events of the release fetch: the queries. *)
Definition loop_event (ev : Event) : Prop :=
  match ev with EvQueryReleases _ => True | _ => False end.

Lemma releases_loop_events (fuel : nat) (src : ReleaseSource) (c : option string)
  (acc : list ReleaseEdge) evs r :
  releases_loop fuel src c acc = Some (evs, r) -> Forall loop_event evs.
Proof.
  revert c acc evs r; induction fuel as [|fuel IH]; intros c acc evs r; simpl;
    [ discriminate | ].
  destruct (answer_errors (src c)).
  - intro H; injection H as <- _; repeat constructor.
  - destruct (match answer_repository (src c) with
              | Some p => page_hasNextPage p | None => false end).
    + destruct (releases_loop fuel _ _ _) as [[evs' r']|] eqn:E; [ | discriminate ].
      intro H; injection H as <- _; constructor; [ exact I | eapply IH; exact E ].
    + intro H; injection H as <- _; repeat constructor.
Qed.

(** A loop that returns the edges met no answer with errors. *)
Lemma releases_loop_ok_queries (fuel : nat) (src : ReleaseSource) (c : option string)
  (acc : list ReleaseEdge) evs xs :
  releases_loop fuel src c acc = Some (evs, inr xs) ->
  forall c', In (EvQueryReleases c') evs -> answer_errors (src c') = false.
Proof.
  revert c acc evs; induction fuel as [|fuel IH]; intros c acc evs; simpl; [ discriminate | ].
  destruct (answer_errors (src c)) eqn:He; [ discriminate | ].
  destruct (match answer_repository (src c) with
            | Some p => page_hasNextPage p | None => false end).
  - destruct (releases_loop fuel _ _ _) as [[evs' r']|] eqn:E; [ | discriminate ].
    intro H; injection H as <- ->.
    intros c' [Hc|Hin]; [ injection Hc as <-; exact He | exact (IH _ _ _ E c' Hin) ].
  - intro H; injection H as <- _.
    intros c' [Hc|[]]; injection Hc as <-; exact He.
Qed.

Lemma getReleases_events (fuel : nat) (e : Env) evs r :
  getReleases fuel e = Some (evs, r) -> Forall loop_event evs.
Proof.
  unfold getReleases; destruct (repoName e).
  - intro H; injection H as <- _; constructor.
  - destruct (releases_loop fuel (releaseSource e) None []) as [[evs' [msg|edges]]|] eqn:E;
      intro H; inversion H; subst; eapply releases_loop_events; exact E.
Qed.

Lemma getReleases_ok_queries (fuel : nat) (e : Env) evs rs :
  getReleases fuel e = Some (evs, inr rs) ->
  forall c, In (EvQueryReleases c) evs -> answer_errors (releaseSource e c) = false.
Proof.
  unfold getReleases; destruct (repoName e); [ discriminate | ].
  destruct (releases_loop fuel (releaseSource e) None []) as [[evs' [msg|edges]]|] eqn:E;
    intro H; inversion H; subst.
  eapply releases_loop_ok_queries; exact E.
Qed.

Definition dryRunOf (e : Env) : bool :=
  match env_DRY_RUN e with Some s => String.eqb s "true" | None => false end.

Definition releaseTypeOf (e : Env) : ReleaseType :=
  getOr (env_RELEASE_TYPE e) (input_release_type e).

(** A run either stops at a configuration check, or fails in the release
    fetch, or is the release fetch followed by the rest of the run. *)
Lemma run_shape (fuel : nat) (e : Env) evs :
  run fuel e = Some evs ->
  (exists msg, evs = [EvSetFailed msg]) \/
  (exists revs msg, getReleases fuel e = Some (revs, inl msg) /\
                    evs = (revs ++ [catchFailure msg])%list) \/
  exists revs releases tb,
    getReleases fuel e = Some (revs, inr releases) /\
    evs = (revs ++ run_after_releases e (getOr (env_GITHUB_SHA e) "") (releaseTypeOf e)
                     tb (dryRunOf e) releases)%list.
Proof.
  unfold run.
  destruct (falsy (env_GITHUB_REF e)); [ intro H; injection H as <-; left; eexists; reflexivity | ].
  destruct (falsy (env_GITHUB_SHA e)); [ intro H; injection H as <-; left; eexists; reflexivity | ].
  destruct (String.eqb _ ""); [ intro H; injection H as <-; left; eexists; reflexivity | ].
  destruct (getReleases fuel e) as [[revs [msg|rs]]|]; [ | | discriminate ].
  - intro H; injection H as <-; right; left; do 2 eexists; split; reflexivity.
  - intro H; injection H as <-; right; right; do 3 eexists; split; reflexivity.
Qed.

(** The effects that publish a result: outputs and writes. *)
Definition write_event (ev : Event) : bool :=
  match ev with
  | EvCreateTag _ | EvCreateRef _ | EvCreateRelease _ _ _ | EvSlackUpload _ => true
  | _ => false
  end.

Definition result_event (ev : Event) : bool :=
  match ev with EvSetOutput _ _ => true | _ => write_event ev end.

Lemma loop_event_no_result (ev : Event) : loop_event ev -> result_event ev = false.
Proof. destruct ev; simpl; tauto. Qed.

Lemma loop_events_no_result (evs : list Event) :
  Forall loop_event evs -> forall ev, In ev evs -> result_event ev = false.
Proof.
  intros H ev Hev; apply loop_event_no_result; exact (proj1 (Forall_forall _ _) H ev Hev).
Qed.

(** The writes at the end of a run (lines 501-543). *)
Definition publish (e : Env) (isDryRun : bool) (completeVersionString changelog : string)
  (releaseType : ReleaseType) : list Event :=
  if isDryRun then []
  else
    match context_repo e with
    | None => [catchFailure contextRepoError]
    | Some _ =>
        requests e
          [EvCreateTag completeVersionString;
           EvCreateRef ("refs/tags/" ++ completeVersionString);
           EvCreateRelease completeVersionString changelog
             (negb (String.eqb releaseType "production"));
           EvSlackUpload changelog]
    end.

Lemma requests_events (e : Env) (reqs : list Event) (ev : Event) :
  In ev (requests e reqs) -> In ev reqs \/ exists msg, ev = catchFailure msg.
Proof.
  induction reqs as [|r rs IH]; simpl; [ tauto | ].
  intros [<-|Hin]; [ now left; left | ].
  destruct (writeFails e r) as [msg|].
  - destruct Hin as [<-|[]]; right; eexists; reflexivity.
  - destruct (IH Hin) as [H|H]; [ left; right; exact H | right; exact H ].
Qed.

Lemma publish_events (e : Env) (dry : bool) (v cl : string) (rt : ReleaseType) (ev : Event) :
  In ev (publish e dry v cl rt) -> write_event ev = true \/ exists msg, ev = catchFailure msg.
Proof.
  unfold publish; destruct dry; [ intros [] | ].
  destruct (context_repo e).
  - intro H; apply requests_events in H as [H|H]; [ left | right; exact H ].
    simpl in H; intuition (subst; reflexivity).
  - intros [<-|[]]; right; eexists; reflexivity.
Qed.

(** The rest of a run either fails before any output, or computes the
    version and sets the outputs, followed by the writes. *)
Lemma run_after_cases (e : Env) (G : string) (rt : ReleaseType) (tb : string) (dry : bool)
  (rs : list UsefulReleaseData) :
  (exists pre msg, run_after_releases e G rt tb dry rs = (pre ++ [catchFailure msg])%list /\
                   forall ev, In ev pre -> result_event ev = false) \/
  exists date hd hp nv md,
    getCommit e G = inr date /\
    compareCommits e (sha (selectDevelopmentBaseline rs date)) G = inr hd /\
    compareCommits e (sha (selectProductionBaseline rs date)) G = inr hp /\
    computeVersion rt rs (selectDevelopmentBaseline rs date) (selectProductionBaseline rs date)
      hd date G (context_sha e) = inr (nv, md) /\
    run_after_releases e G rt tb dry rs =
      ([EvGetCommit G; EvCompareCommits (sha (selectDevelopmentBaseline rs date)) G;
        EvCompareCommits (sha (selectProductionBaseline rs date)) G;
        EvSetOutput "version" (nv ++ md);
        EvSetOutput "normalisedVersion" (JS.replace_first "+"%char "-" (nv ++ md));
        EvSetOutput "versionNumber" (JS.replace_first "v"%char "" nv)]
       ++ publish e dry (nv ++ md) (generateChangelog rt hd hp) rt)%list.
Proof.
  unfold run_after_releases.
  destruct (repoOwner e) as [msg|o];
    [ left; exists [], msg; split; [ reflexivity | intros ev [] ] | ].
  destruct (repoName e) as [msg|r];
    [ left; exists [], msg; split; [ reflexivity | intros ev [] ] | ].
  destruct (getCommit e G) as [msg|date] eqn:Ec;
    [ left; exists [EvGetCommit G], msg;
      split; [ reflexivity | intros ev [<-|[]]; reflexivity ] | ].
  destruct (compareCommits e (sha (selectDevelopmentBaseline rs date)) G) as [msg|hd] eqn:Ed;
    [ left; eexists [_; _], msg;
      split; [ reflexivity | intros ev [<-|[<-|[]]]; reflexivity ] | ].
  destruct (compareCommits e (sha (selectProductionBaseline rs date)) G) as [msg|hp] eqn:Ep;
    [ left; eexists [_; _; _], msg;
      split; [ reflexivity | intros ev [<-|[<-|[<-|[]]]]; reflexivity ] | ].
  destruct (computeVersion _ _ _ _ _ _ _ _) as [msg|[nv md]] eqn:Ev;
    [ left; eexists [_; _; _], msg;
      split; [ reflexivity | intros ev [<-|[<-|[<-|[]]]]; reflexivity ] | ].
  right; exists date, hd, hp, nv, md; repeat split; try assumption.
Qed.

Lemma last_app_ne {A} (l m : list A) (d : A) :
  m <> [] -> last (l ++ m)%list d = last m d.
Proof.
  intro Hm; induction l as [|a l IH]; [ reflexivity | ].
  cbn [app last]; rewrite <- IH.
  destruct (l ++ m)%list eqn:E; [ apply app_eq_nil in E as [_ ->]; contradiction | reflexivity ].
Qed.

Definition okPage (edges : list (option ReleaseEdge)) (cursor : option string)
  (more : bool) : ReleasesAnswer :=
  {| answer_errors := false;
     answer_errorMessage := "";
     answer_repository := Some {| page_edges := Some edges; page_endCursor := cursor;
                                  page_hasNextPage := more |} |}.

(** The answer for a repository the token cannot see. *)
Definition errorAnswer : ReleasesAnswer :=
  {| answer_errors := true;
     answer_errorMessage := "Could not resolve to a Repository with the name 'cloudshelf/repo'.";
     answer_repository := None |}.

(** A run context with every required value present, run in the
    repository [cloudshelf/repo]. *)
Definition baseEnv (channel : option string) (src : ReleaseSource) : Env :=
  {| env_GITHUB_REF := Some "refs/heads/development";
     env_GITHUB_SHA := Some "abcdef1234";
     env_GITHUB_TOKEN := Some "token";
     input_github_token := "";
     env_RELEASE_TYPE := channel;
     input_release_type := "";
     env_DRY_RUN := None;
     env_GITHUB_OWNER := None;
     env_GITHUB_REPO := None;
     context_repo := Some ("cloudshelf", "repo");
     context_sha := Some "abcdef1234";
     releaseSource := src;
     getCommit := fun _ => inr 1000000;
     compareCommits := fun _ _ => inr ["feat: b"];
     writeFails := fun _ => None |}.

Definition emptyCatalog : ReleaseSource := fun _ => okPage [] None false.

(** A run whose release query answers with errors. *)
Definition errEnv : Env := baseEnv (Some "development") (fun _ => errorAnswer).

(** A run whose commit comparisons reject. *)
Definition compareFailEnv : Env :=
  let e := baseEnv (Some "development") emptyCatalog in
  mkEnv (env_GITHUB_REF e) (env_GITHUB_SHA e) (env_GITHUB_TOKEN e) (input_github_token e)
    (env_RELEASE_TYPE e) (input_release_type e) (env_DRY_RUN e) (env_GITHUB_OWNER e)
    (env_GITHUB_REPO e) (context_repo e) (context_sha e) (releaseSource e) (getCommit e)
    (fun _ _ => inl "Not Found") (writeFails e).

Definition errEvents : list Event :=
  Eval vm_compute in match run 3 errEnv with Some evs => evs | None => [] end.

Definition compareFailEvents : list Event :=
  Eval vm_compute in match run 1 compareFailEnv with Some evs => evs | None => [] end.

Ltac find_in := vm_compute; repeat first [ left; reflexivity | right ].

(** C6.  When an answer of the release query that the run sent reports
    errors (Apollo's default error policy then rejects the query), or a
    commit comparison that the run requested rejects, the run ends in the
    [run().catch] failure report: it sets no output, creates no tag, ref or
    release, and uploads nothing. *)
Theorem upstream_error_fatal (fuel : nat) (e : Env) (evs : list Event) :
  run fuel e = Some evs ->
  (exists c, In (EvQueryReleases c) evs /\ answer_errors (releaseSource e c) = true) \/
  (exists b h msg, In (EvCompareCommits b h) evs /\ compareCommits e b h = inl msg) ->
  (forall ev, In ev evs -> result_event ev = false) /\
  exists msg, last evs (EvSetFailed "") = EvSetFailed msg.
Proof.
  intros Hrun Hyp.
  destruct (run_shape _ _ _ Hrun)
    as [[msg ->] | [(revs & msg & Hget & ->) | (revs & rs & tb & Hget & ->)]].
  - split; [ intros ev [<-|[]]; reflexivity | eexists; reflexivity ].
  - pose proof (loop_events_no_result _ (getReleases_events _ _ _ _ Hget)) as Hrev.
    split.
    + intros ev Hev; apply in_app_or in Hev as [Hev|[<-|[]]]; [ exact (Hrev ev Hev) | reflexivity ].
    + rewrite last_last; eexists; reflexivity.
  - pose proof (loop_events_no_result _ (getReleases_events _ _ _ _ Hget)) as Hrev.
    pose proof (getReleases_ok_queries _ _ _ _ Hget) as Hok.
    destruct (run_after_cases e (getOr (env_GITHUB_SHA e) "") (releaseTypeOf e) tb (dryRunOf e) rs)
      as [(pre & msg & Ha & Hpre) | (date & hd & hp & nv & md & Ec & Ed & Ep & Ev & Ha)];
      rewrite Ha in *.
    + split.
      * intros ev Hev; apply in_app_or in Hev as [Hev|Hev]; [ exact (Hrev ev Hev) | ].
        apply in_app_or in Hev as [Hev|[<-|[]]]; [ exact (Hpre ev Hev) | reflexivity ].
      * rewrite app_assoc, last_last; eexists; reflexivity.
    + exfalso.
      destruct Hyp as [(c & Hin & Herr) | (b & h & msg & Hin & Hcmp)].
      * apply in_app_or in Hin as [Hin|Hin]; [ rewrite (Hok c Hin) in Herr; discriminate | ].
        apply in_app_or in Hin as [Hin|Hin];
          [ simpl in Hin; intuition discriminate | ].
        apply publish_events in Hin as [Hw|[m Hm]]; [ discriminate | discriminate ].
      * apply in_app_or in Hin as [Hin|Hin];
          [ apply (proj1 (Forall_forall _ _) (getReleases_events _ _ _ _ Hget)) in Hin;
            exact Hin | ].
        apply in_app_or in Hin as [Hin|Hin].
        -- simpl in Hin; destruct Hin as [H|[H|[H|H]]]; try discriminate.
           ++ injection H as <- <-; congruence.
           ++ injection H as <- <-; congruence.
           ++ simpl in H; intuition discriminate.
        -- apply publish_events in Hin as [Hw|[m Hm]]; discriminate.
Qed.

Lemma upstream_error_fatal_witness :
  ((forall ev, In ev errEvents -> result_event ev = false) /\
   exists msg, last errEvents (EvSetFailed "") = EvSetFailed msg) /\
  ((forall ev, In ev compareFailEvents -> result_event ev = false) /\
   exists msg, last compareFailEvents (EvSetFailed "") = EvSetFailed msg).
Proof.
  split.
  - apply (upstream_error_fatal 3 errEnv errEvents); [ vm_compute; reflexivity | ].
    left; exists None; split; [ find_in | reflexivity ].
  - apply (upstream_error_fatal 1 compareFailEnv compareFailEvents);
      [ vm_compute; reflexivity | ].
    right; exists "", "abcdef1234", "Not Found"; split; [ find_in | reflexivity ].
Defined.

(** The loop has met a page that ends it within [n] further pages. *)
Fixpoint ends_within (src : ReleaseSource) (c : option string) (n : nat) : bool :=
  let ans := src c in
  if answer_errors ans then true
  else match answer_repository ans with
       | None => true
       | Some p =>
           if page_hasNextPage p then
             match n with
             | O => false
             | S n' => ends_within src (page_endCursor p) n'
             end
           else true
       end.

(** A source whose answers end the loop within [n] further pages. *)
Lemma releases_loop_ends (src : ReleaseSource) (c : option string) (n : nat)
  (acc : list ReleaseEdge) :
  ends_within src c n = true -> exists r, releases_loop (S n) src c acc = Some r.
Proof.
  revert c acc. induction n as [|n IH]; intros c acc H.
  - simpl in *. destruct (answer_errors (src c)); [eexists; reflexivity|].
    destruct (answer_repository (src c)) as [p|]; [|eexists; reflexivity].
    destruct (page_hasNextPage p); [discriminate | eexists; reflexivity].
  - remember (S n) as m. simpl. subst m. simpl in H.
    destruct (answer_errors (src c)); [eexists; reflexivity|].
    destruct (answer_repository (src c)) as [p|]; [|eexists; reflexivity].
    destruct (page_hasNextPage p); [|eexists; reflexivity].
    destruct (IH _ (acc ++ pushed_edges (Some p))%list H) as [r Hr].
    rewrite Hr. destruct r. eexists; reflexivity.
Qed.

(** Every finished loop starts with the query of its first cursor. *)
Lemma releases_loop_head (fuel : nat) (src : ReleaseSource) (c : option string)
  (acc : list ReleaseEdge) evs r :
  releases_loop fuel src c acc = Some (evs, r) ->
  exists evs', evs = EvQueryReleases c :: evs'.
Proof.
  destruct fuel as [|fuel]; simpl; [discriminate|]. intros H.
  destruct (answer_errors (src c)); [inversion H; eexists; reflexivity|].
  destruct (answer_repository (src c)) as [p|]; [destruct (page_hasNextPage p)|];
    try destruct (releases_loop fuel _ _ _) as [[? ?]|];
    inversion H; eexists; reflexivity.
Qed.

(** A source that always reports a further page keeps the loop running. *)
Lemma releases_loop_unbounded (src : ReleaseSource) :
  (forall c, answer_errors (src c) = false /\
             exists p, answer_repository (src c) = Some p /\ page_hasNextPage p = true) ->
  forall fuel c acc, releases_loop fuel src c acc = None.
Proof.
  intros Hsrc fuel. induction fuel as [|fuel IH]; intros c acc; [reflexivity|].
  simpl. destruct (Hsrc c) as [He [p [Hp Hn]]].
  rewrite He, Hp. simpl. rewrite Hn, IH. reflexivity.
Qed.

(** A source that repeats one cursor with an empty page and a further page. *)
Definition stallSource : ReleaseSource := fun _ => okPage [] (Some "Y3Vyc29y") true.

Lemma stallSource_unbounded :
  forall c, answer_errors (stallSource c) = false /\
    exists p, answer_repository (stallSource c) = Some p /\ page_hasNextPage p = true.
Proof. intros c. split; [reflexivity|]. eexists. split; reflexivity. Qed.

(** C7 (amended).  The release loop ends as soon as an answer reports
    errors, has no repository, or reports no further page, so it terminates
    on every source whose answers reach such a page (a single empty page,
    and pages with a further page and no edges, included).  There is no
    stall check: a source that always reports a further page, for example
    with the same cursor each time, keeps the loop running forever and no
    failure is reported. *)
Theorem release_pagination :
  (forall (src : ReleaseSource) (c : option string) (n : nat) (acc : list ReleaseEdge),
     ends_within src c n = true -> exists r, releases_loop (S n) src c acc = Some r) /\
  (forall src : ReleaseSource,
     (forall c, answer_errors (src c) = false /\
                exists p, answer_repository (src c) = Some p /\ page_hasNextPage p = true) ->
     forall fuel c acc, releases_loop fuel src c acc = None).
Proof.
  split; [exact releases_loop_ends | exact releases_loop_unbounded].
Qed.

Lemma release_pagination_witness :
  (exists r, releases_loop 1 (fun _ => okPage [] None false) None [] = Some r) /\
  (exists r, releases_loop 3
     (fun c => match c with
               | None => okPage [] (Some "a") true
               | Some _ => okPage [] (Some "b") false
               end) None [] = Some r) /\
  releases_loop 10%nat stallSource None [] = None.
Proof.
  split; [|split].
  - exact (proj1 release_pagination (fun _ => okPage [] None false) None 0%nat [] eq_refl).
  - exact (proj1 release_pagination
             (fun c => match c with
                       | None => okPage [] (Some "a") true
                       | Some _ => okPage [] (Some "b") false
                       end) None 2%nat [] eq_refl).
  - exact (proj2 release_pagination stallSource stallSource_unbounded 10%nat None []).
Defined.

(** C7 (counterexample).  Pages repeating one cursor with no edges: the run
    never gets past the release fetch, whatever the number of iterations,
    and reports nothing. *)
Lemma release_pagination_counterexample :
  ~ exists fuel evs, run fuel (baseEnv (Some "development") stallSource) = Some evs.
Proof.
  intros [fuel [evs H]]. unfold run in H. simpl in H. unfold getReleases in H. simpl in H.
  rewrite (releases_loop_unbounded stallSource stallSource_unbounded) in H.
  discriminate.
Qed.

(** C9 (amended).  A missing or empty [GITHUB_REF] or [GITHUB_SHA], or an
    empty access token ([GITHUB_TOKEN], else the [github_token] input), makes
    the run report a failure and stop before any network request.  The
    channel is not checked: once these three checks pass and the repository
    is known ([GITHUB_REPO], else [GITHUB_REPOSITORY] or the event payload),
    the first effect is the release query, whatever the channel input
    holds.  With no repository known the run fails with the [context.repo]
    error, also before any network request. *)
Theorem configuration_checks :
  (forall (fuel : nat) (e : Env),
     falsy (env_GITHUB_REF e) = true \/ falsy (env_GITHUB_SHA e) = true \/
     getOr (env_GITHUB_TOKEN e) (input_github_token e) = "" ->
     exists msg, run fuel e = Some [EvSetFailed msg]) /\
  (forall (n : nat) (e : Env),
     falsy (env_GITHUB_REF e) = false -> falsy (env_GITHUB_SHA e) = false ->
     getOr (env_GITHUB_TOKEN e) (input_github_token e) <> "" ->
     env_GITHUB_REPO e <> None \/ context_repo e <> None ->
     ends_within (releaseSource e) None n = true ->
     exists evs, run (S n) e = Some (EvQueryReleases None :: evs)) /\
  (forall (fuel : nat) (e : Env),
     falsy (env_GITHUB_REF e) = false -> falsy (env_GITHUB_SHA e) = false ->
     getOr (env_GITHUB_TOKEN e) (input_github_token e) <> "" ->
     env_GITHUB_REPO e = None -> context_repo e = None ->
     run fuel e = Some [catchFailure contextRepoError]).
Proof.
  split; [ | split ].
  - intros fuel e H. unfold run.
    destruct (falsy (env_GITHUB_REF e)) eqn:Hr; [eexists; reflexivity|].
    destruct (falsy (env_GITHUB_SHA e)) eqn:Hs; [eexists; reflexivity|].
    destruct H as [H|[H|H]]; try discriminate.
    rewrite H. eexists; reflexivity.
  - intros n e Hr Hs Ht Hrepo Hn. unfold run. rewrite Hr, Hs.
    destruct (String.eqb_spec (getOr (env_GITHUB_TOKEN e) (input_github_token e)) "");
      [contradiction|].
    unfold getReleases.
    assert (Hname : exists r, repoName e = inr r).
    { unfold repoName. destruct (env_GITHUB_REPO e) as [r|]; [ now exists r | ].
      destruct (context_repo e) as [[o r]|]; [ now exists r | ].
      destruct Hrepo; contradiction. }
    destruct Hname as [nm ->].
    destruct (releases_loop_ends (releaseSource e) None n [] Hn) as [[evs r] Hl].
    rewrite Hl. destruct (releases_loop_head _ _ _ _ _ _ Hl) as [evs' ->].
    destruct r; eexists; reflexivity.
  - intros fuel e Hr Hs Ht Hrepo Hctx. unfold run. rewrite Hr, Hs.
    destruct (String.eqb_spec (getOr (env_GITHUB_TOKEN e) (input_github_token e)) "");
      [contradiction|].
    unfold getReleases, repoName. rewrite Hrepo, Hctx. reflexivity.
Qed.

(** The same context without [GITHUB_SHA]. *)
Definition noShaEnv : Env :=
  let e := baseEnv (Some "development") emptyCatalog in
  mkEnv (env_GITHUB_REF e) None (env_GITHUB_TOKEN e) (input_github_token e)
    (env_RELEASE_TYPE e) (input_release_type e) (env_DRY_RUN e) (env_GITHUB_OWNER e)
    (env_GITHUB_REPO e) (context_repo e) (context_sha e) (releaseSource e) (getCommit e)
    (compareCommits e) (writeFails e).

(** The same context outside a repository: neither [GITHUB_REPO] nor
    [GITHUB_REPOSITORY] nor a payload repository. *)
Definition noRepoEnv : Env :=
  let e := baseEnv (Some "development") emptyCatalog in
  mkEnv (env_GITHUB_REF e) (env_GITHUB_SHA e) (env_GITHUB_TOKEN e) (input_github_token e)
    (env_RELEASE_TYPE e) (input_release_type e) (env_DRY_RUN e) (env_GITHUB_OWNER e)
    None None (context_sha e) (releaseSource e) (getCommit e)
    (compareCommits e) (writeFails e).

Lemma configuration_checks_witness :
  (exists msg, run 5 noShaEnv = Some [EvSetFailed msg]) /\
  (exists evs, run 1 (baseEnv (Some "rc") emptyCatalog) = Some (EvQueryReleases None :: evs)) /\
  run 5 noRepoEnv = Some [catchFailure contextRepoError].
Proof.
  split; [ | split ].
  - exact (proj1 configuration_checks 5%nat noShaEnv (or_intror (or_introl eq_refl))).
  - refine (proj1 (proj2 configuration_checks) 0%nat (baseEnv (Some "rc") emptyCatalog)
             eq_refl eq_refl _ _ eq_refl).
    + discriminate.
    + right; discriminate.
  - refine (proj2 (proj2 configuration_checks) 5%nat noRepoEnv eq_refl eq_refl _
              eq_refl eq_refl).
    discriminate.
Defined.

(** C9 (counterexample).  With no channel given (no [RELEASE_TYPE] and an
    empty [release_type] input) the run reports no configuration error: it
    queries the releases and goes on to set the outputs. *)
Lemma configuration_checks_counterexample :
  run 1 (baseEnv None emptyCatalog) =
  Some [EvQueryReleases None; EvGetCommit "abcdef1234";
        EvCompareCommits "" "abcdef1234"; EvCompareCommits "" "abcdef1234";
        EvSetOutput "version" "v0.0.0"; EvSetOutput "normalisedVersion" "v0.0.0";
        EvSetOutput "versionNumber" "0.0.0";
        EvCreateTag "v0.0.0"; EvCreateRef "refs/tags/v0.0.0";
        EvCreateRelease "v0.0.0"
          ("# All changes since last production release" ++ JS.nl ++ JS.nl ++
           "### New Features" ++ JS.nl ++ "- feat: b" ++ JS.nl) true;
        EvSlackUpload
          ("# All changes since last production release" ++ JS.nl ++ JS.nl ++
           "### New Features" ++ JS.nl ++ "- feat: b" ++ JS.nl)].
Proof. vm_compute. reflexivity. Qed.

(** ** Decimal interpolation and [parseInt] *)

Definition uint_chars (d : Decimal.uint) : list ascii :=
  list_ascii_of_string (NilEmpty.string_of_uint d).


Lemma uint_value (d : Decimal.uint) (acc : Z) :
  fold_left (fun acc c => acc * 10 + JS.digit_value c) (uint_chars d) acc
  = acc * 10 ^ Z.of_N (DecimalPos.Unsigned.usize d) + Z.of_N (Pos.of_uint d).
Proof.
  revert acc; induction d; intro acc;
  [ cbn; now rewrite Z.mul_1_r, Z.add_0_r | .. ];
  rewrite DecimalPos.Unsigned.of_uint_alt; unfold Decimal.rev; cbn [Decimal.revapp];
  rewrite DecimalPos.Unsigned.of_lu_revapp, <- DecimalPos.Unsigned.of_uint_alt;
  unfold uint_chars; cbn [NilEmpty.string_of_uint list_ascii_of_string fold_left];
  fold (uint_chars d); rewrite IHd; cbn [DecimalPos.Unsigned.usize DecimalPos.Unsigned.of_lu];
  rewrite N2Z.inj_add, N2Z.inj_mul, N2Z.inj_pow, N2Z.inj_succ, Z.pow_succ_r by lia;
  change (Z.of_N 10) with 10; generalize (10 ^ Z.of_N (DecimalPos.Unsigned.usize d)); intro X; match goal with |- context [JS.digit_value ?c] => let v := eval vm_compute in (JS.digit_value c) in change (JS.digit_value c) with v end; rewrite N.mul_0_r, ?N.add_0_r; simpl Z.of_N; ring.
Qed.

Lemma uint_chars_digits (d : Decimal.uint) :
  Forall (fun c => Regex.is_digit c = true) (uint_chars d).
Proof.
  induction d; unfold uint_chars in *; cbn [NilEmpty.string_of_uint list_ascii_of_string];
  constructor; auto.
Qed.

Lemma decimal_digits (n : Z) :
  0 <= n ->
  list_ascii_of_string (JS.decimal n) <> [] /\
  Forall (fun c => Regex.is_digit c = true) (list_ascii_of_string (JS.decimal n)) /\
  JS.digitsValue (list_ascii_of_string (JS.decimal n)) = n.
Proof.
  intro Hn; destruct n as [|p|p]; [ now repeat constructor | | lia ].
  unfold JS.decimal; cbn [Z.to_int NilEmpty.string_of_int].
  fold (uint_chars (Pos.to_uint p)); repeat split.
  - pose proof (DecimalPos.Unsigned.to_uint_nonnil p) as H.
    destruct (Pos.to_uint p); [ contradiction | discriminate .. ].
  - apply uint_chars_digits.
  - unfold JS.digitsValue; rewrite uint_value, DecimalPos.Unsigned.of_to; reflexivity.
Qed.

(** ** The version regex on the strings [run] builds *)

Lemma list_ascii_of_string_app (s1 s2 : string) :
  list_ascii_of_string (s1 ++ s2) = (list_ascii_of_string s1 ++ list_ascii_of_string s2)%list.
Proof. induction s1; simpl; congruence. Qed.

Definition stops (cls : ascii -> bool) (rest : list ascii) : Prop :=
  match rest with [] => True | a :: _ => cls a = false end.

Lemma plus_go_longest (cls : ascii -> bool) (ds rest : list ascii) caps k c :
  ds <> [] -> Forall (fun a => cls a = true) ds -> stops cls rest ->
  k (Some (last ds "0"%char)) rest caps = Some c ->
  Regex.plus_go cls (ds ++ rest) caps k = Some c.
Proof.
  intros Hne Hall Hstop Hk; induction ds as [|a ds IH]; [ contradiction | ].
  inversion Hall as [|? ? Ha Hall']; subst; simpl; rewrite Ha.
  destruct ds as [|b ds].
  - simpl in *; destruct rest as [|r rest]; simpl in Hstop |- *; [ exact Hk | ].
    now rewrite Hstop.
  - rewrite IH; [ reflexivity | discriminate | exact Hall' | exact Hk ].
Qed.

Lemma firstn_consumed (ds rest l : list ascii) (n : nat) :
  l = (ds ++ rest)%list -> n = List.length rest -> firstn (List.length l - n) l = ds.
Proof.
  intros -> ->; rewrite length_app, Nat.add_sub, firstn_app, firstn_all, Nat.sub_diag.
  now rewrite app_nil_r.
Qed.

Lemma exec_from_here (r : Regex.re) (s : list ascii) (c : Regex.Caps) :
  Regex.mtch r None s [] (fun _ _ c => Some c) = Some c ->
  Regex.exec_from r None s = Some c.
Proof. intro H; destruct s; simpl; now rewrite H. Qed.

Definition digit_run (ds : list ascii) : Prop :=
  ds <> [] /\ Forall (fun c => Regex.is_digit c = true) ds.

Lemma plus_go_all (cls : ascii -> bool) (ds : list ascii) caps k c :
  ds <> [] -> Forall (fun a => cls a = true) ds ->
  k (Some (last ds "0"%char)) [] caps = Some c ->
  Regex.plus_go cls ds caps k = Some c.
Proof.
  intros Hne Hall Hk; rewrite <- (app_nil_r ds); now apply plus_go_longest.
Qed.

Ltac reduce := cbn -[Nat.sub List.length firstn Regex.canon]; rewrite ?Ascii.eqb_refl.

Ltac run_plus :=
  repeat (reduce; first
    [ erewrite plus_go_longest;
      [ reduce; reflexivity | eassumption | eassumption
      | cbn; first [ exact I | reflexivity ] | ]
    | erewrite plus_go_all; [ reduce; reflexivity | eassumption | eassumption | ] ]).

Ltac prefix_of l r :=
  match l with
  | r => constr:(@nil ascii)
  | ?a :: ?l' => let p := prefix_of l' r in constr:(a :: p)
  end.

Ltac consumed :=
  repeat match goal with
  | |- context [firstn (List.length ?l - ?n) ?l] =>
      first
        [ erewrite (firstn_consumed _ _ l n) by reflexivity
        | match n with
          | List.length ?r =>
              let p := prefix_of l r in rewrite (firstn_consumed p r l n) by reflexivity
          end ]
  end.

Ltac parse_tac :=
  intros; repeat match goal with H : digit_run _ |- _ => destruct H end;
  unfold extractVersionInfo, Regex.exec; rewrite list_ascii_of_string_of_list_ascii;
  erewrite exec_from_here;
  [ | run_plus; reduce; reflexivity ];
  cbn -[Nat.sub List.length firstn]; consumed;
  rewrite ?Nat.sub_0_r, ?firstn_all; reflexivity.

Lemma parse_production (d1 d2 d3 : list ascii) :
  digit_run d1 -> digit_run d2 -> digit_run d3 ->
  extractVersionInfo (string_of_list_ascii ("v" :: d1 ++ "." :: d2 ++ "." :: d3)%char%list)
  = Some {| major := JS.parseInt d1; minor := JS.parseInt d2; patch := JS.parseInt d3;
            releaseType := "production"; releaseCandidate := None; hash := None |}.
Proof. parse_tac. Qed.

Lemma parse_development (d1 d2 d3 h : list ascii) :
  digit_run d1 -> digit_run d2 -> digit_run d3 ->
  h <> [] -> Forall (fun c => Regex.is_hex_i c = true) h ->
  extractVersionInfo (string_of_list_ascii ("v" :: d1 ++ "." :: d2 ++ "." :: d3
                        ++ list_ascii_of_string "-development+" ++ h)%char%list)
  = Some {| major := JS.parseInt d1; minor := JS.parseInt d2; patch := JS.parseInt d3;
            releaseType := "development"; releaseCandidate := None;
            hash := Some (string_of_list_ascii h) |}.
Proof. parse_tac. Qed.

Lemma parse_rc (d1 d2 d3 d4 h : list ascii) :
  digit_run d1 -> digit_run d2 -> digit_run d3 -> digit_run d4 ->
  h <> [] -> Forall (fun c => Regex.is_hex_i c = true) h ->
  extractVersionInfo (string_of_list_ascii ("v" :: d1 ++ "." :: d2 ++ "." :: d3
                        ++ list_ascii_of_string "-rc." ++ d4 ++ "+" :: h)%char%list)
  = Some {| major := JS.parseInt d1; minor := JS.parseInt d2; patch := JS.parseInt d3;
            releaseType := "rc"; releaseCandidate := Some (JS.parseInt d4);
            hash := Some (string_of_list_ascii h) |}.
Proof. parse_tac. Qed.

(** A safe integer reads back: [parseInt] of its digits is itself. *)
Lemma decimal_parseInt (n : Z) :
  0 <= n < 2 ^ 53 -> JS.parseInt (list_ascii_of_string (JS.decimal n)) = Num n.
Proof.
  intro Hn; destruct (decimal_digits n (proj1 Hn)) as (_ & _ & V).
  unfold JS.parseInt; rewrite V; apply double_of_Z_small; lia.
Qed.

Definition safe (n : Z) : Prop := 0 <= n < 2 ^ 53.

Lemma versionString_safe (a b c : Z) :
  safe a -> safe b -> safe c ->
  versionString (nums (a, b, c)) =
  "v" ++ JS.decimal a ++ "." ++ JS.decimal b ++ "." ++ JS.decimal c.
Proof.
  intros Ha Hb Hc; unfold versionString, nums.
  rewrite !toString_safe by assumption; reflexivity.
Qed.

Lemma versionString_chars (a b c : Z) :
  safe a -> safe b -> safe c ->
  list_ascii_of_string (versionString (nums (a, b, c))) =
  ("v" :: list_ascii_of_string (JS.decimal a) ++ "." ::
   list_ascii_of_string (JS.decimal b) ++ "." ::
   list_ascii_of_string (JS.decimal c))%char%list.
Proof.
  intros Ha Hb Hc; rewrite versionString_safe by assumption.
  rewrite !list_ascii_of_string_app; reflexivity.
Qed.

Lemma hex_nonempty (h : string) :
  h <> "" -> list_ascii_of_string h <> [].
Proof. destruct h; [ contradiction | discriminate ]. Qed.

Lemma parse_production_str (a b c : Z) :
  safe a -> safe b -> safe c ->
  extractVersionInfo (versionString (nums (a, b, c)))
    = Some (mkVersionInfo (Num a) (Num b) (Num c) "production" None None).
Proof.
  intros Ha Hb Hc.
  destruct (decimal_digits a (proj1 Ha)) as (Na & Da & _).
  destruct (decimal_digits b (proj1 Hb)) as (Nb & Db & _).
  destruct (decimal_digits c (proj1 Hc)) as (Nc & Dc & _).
  rewrite <- (string_of_list_ascii_of_string (versionString _)), versionString_chars
    by assumption.
  rewrite parse_production by (split; assumption).
  now rewrite !decimal_parseInt by assumption.
Qed.

Lemma parse_development_str (a b c : Z) (h : string) :
  safe a -> safe b -> safe c -> h <> "" ->
  Forall (fun ch => Regex.is_hex_i ch = true) (list_ascii_of_string h) ->
  extractVersionInfo (versionString (nums (a, b, c)) ++ "-development+" ++ h)
    = Some (mkVersionInfo (Num a) (Num b) (Num c) "development" None (Some h)).
Proof.
  intros Ha Hb Hc Hh Hhex; apply hex_nonempty in Hh.
  destruct (decimal_digits a (proj1 Ha)) as (Na & Da & _).
  destruct (decimal_digits b (proj1 Hb)) as (Nb & Db & _).
  destruct (decimal_digits c (proj1 Hc)) as (Nc & Dc & _).
  rewrite <- (string_of_list_ascii_of_string (_ ++ _)), !list_ascii_of_string_app,
    versionString_chars by assumption;
    repeat (rewrite <- app_comm_cons || rewrite <- app_assoc).
  rewrite parse_development by (try split; assumption).
  now rewrite !decimal_parseInt, string_of_list_ascii_of_string by assumption.
Qed.

Lemma parse_rc_str (a b c n : Z) (h : string) :
  safe a -> safe b -> safe c -> safe n -> h <> "" ->
  Forall (fun ch => Regex.is_hex_i ch = true) (list_ascii_of_string h) ->
  extractVersionInfo (versionString (nums (a, b, c)) ++ "-rc." ++ JS.number_toString (Num n)
                      ++ "+" ++ h)
    = Some (mkVersionInfo (Num a) (Num b) (Num c) "rc" (Some (Num n)) (Some h)).
Proof.
  intros Ha Hb Hc Hn Hh Hhex; apply hex_nonempty in Hh.
  rewrite toString_safe by exact Hn.
  destruct (decimal_digits a (proj1 Ha)) as (Na & Da & _).
  destruct (decimal_digits b (proj1 Hb)) as (Nb & Db & _).
  destruct (decimal_digits c (proj1 Hc)) as (Nc & Dc & _).
  destruct (decimal_digits n (proj1 Hn)) as (Nn & Dn & _).
  rewrite <- (string_of_list_ascii_of_string (_ ++ _)), !list_ascii_of_string_app,
    versionString_chars by assumption;
    repeat (rewrite <- app_comm_cons || rewrite <- app_assoc).
  change (list_ascii_of_string "+") with ["+"%char]; cbn [app].
  rewrite parse_rc by (try split; assumption).
  now rewrite !decimal_parseInt, string_of_list_ascii_of_string by assumption.
Qed.

(** Interpolating a safe integer (0 <= n < 2^53) into a template literal
    prints its decimal digits, a non-empty run of digits, and [parseInt] of
    them gives the same Number back. *)
Theorem safe_integer_print_parse (n : Z) :
  0 <= n < 2 ^ 53 ->
  JS.number_toString (Num n) = JS.decimal n /\
  list_ascii_of_string (JS.decimal n) <> [] /\
  Forall (fun c => Regex.is_digit c = true) (list_ascii_of_string (JS.decimal n)) /\
  JS.parseInt (list_ascii_of_string (JS.decimal n)) = Num n.
Proof.
  intro Hn; destruct (decimal_digits n (proj1 Hn)) as (N & D & _).
  split; [ now apply toString_safe | split; [ exact N | split; [ exact D | ] ] ].
  now apply decimal_parseInt.
Qed.

(** Round trip of the version strings that [run] builds: for safe integers
    (0 <= x < 2^53) and a non-empty hexadecimal hash, [extractVersionInfo]
    parses the production form [vA.B.C], the development form
    [vA.B.C-development+H] and the rc form [vA.B.C-rc.N+H] back to exactly
    their components. *)
Theorem versionString_roundtrip (a b c n : Z) (h : string) :
  0 <= a < 2 ^ 53 -> 0 <= b < 2 ^ 53 -> 0 <= c < 2 ^ 53 -> 0 <= n < 2 ^ 53 -> h <> "" ->
  Forall (fun ch => Regex.is_hex_i ch = true) (list_ascii_of_string h) ->
  extractVersionInfo (versionString (nums (a, b, c)))
    = Some (mkVersionInfo (Num a) (Num b) (Num c) "production" None None) /\
  extractVersionInfo (versionString (nums (a, b, c)) ++ "-development+" ++ h)
    = Some (mkVersionInfo (Num a) (Num b) (Num c) "development" None (Some h)) /\
  extractVersionInfo (versionString (nums (a, b, c)) ++ "-rc." ++ JS.number_toString (Num n)
                      ++ "+" ++ h)
    = Some (mkVersionInfo (Num a) (Num b) (Num c) "rc" (Some (Num n)) (Some h)).
Proof.
  intros; split; [ | split ].
  - now apply parse_production_str.
  - now apply parse_development_str.
  - now apply parse_rc_str.
Qed.

Definition group_class (n : nat) : option (ascii -> bool) :=
  match n with
  | 1 | 2 | 3 | 9 => Some Regex.is_digit
  | 10 => Some Regex.is_hex_i
  | _ => None
  end%nat.

Definition caps_ok (l : Regex.Caps) : Prop :=
  Forall (fun nv => match group_class (fst nv) with
                    | Some cls => snd nv <> [] /\ Forall (fun a => cls a = true) (snd nv)
                    | None => True
                    end) l.

Fixpoint groups_ok (r : Regex.re) : Prop :=
  match r with
  | Regex.RSeq r1 r2 | Regex.RAlt r1 r2 => groups_ok r1 /\ groups_ok r2
  | Regex.ROpt r1 => groups_ok r1
  | Regex.RGroup n r1 =>
      match group_class n with
      | Some cls =>
          match r1 with
          | Regex.RPlus cls' => forall a, cls' a = true -> cls a = true
          | _ => False
          end
      | None => groups_ok r1
      end
  | _ => True
  end.

Lemma plus_go_inv (cls : ascii -> bool) (s : list ascii) caps k c :
  Regex.plus_go cls s caps k = Some c ->
  exists ds s' a, s = (ds ++ s')%list /\ ds <> [] /\ Forall (fun x => cls x = true) ds /\
                  k (Some a) s' caps = Some c.
Proof.
  induction s as [|x s IH]; simpl; [ discriminate | ].
  destruct (cls x) eqn:Hx; [ | discriminate ].
  destruct (Regex.plus_go cls s caps k) eqn:Hp.
  - intro E; injection E as <-.
    destruct (IH eq_refl) as (ds & s' & a & -> & _ & Hall & Hk).
    exists (x :: ds), s', a; repeat split; auto; discriminate.
  - intro Hk; exists [x], s, x; repeat split; auto; discriminate.
Qed.

Lemma caps_ok_app (l1 l2 : Regex.Caps) : caps_ok l1 -> caps_ok l2 -> caps_ok (l1 ++ l2)%list.
Proof. intros; apply Forall_app; split; assumption. Qed.

Lemma mtch_inv (r : Regex.re) :
  groups_ok r -> forall prev s caps k c,
  Regex.mtch r prev s caps k = Some c ->
  exists p s' l, caps_ok l /\ k p s' (l ++ caps)%list = Some c.
Proof.
  induction r as [ch| |cls|r1 IH1 r2 IH2|r1 IH1 r2 IH2|n r1 IH1|r1 IH1| | ];
    intros Hok prev s caps k c; simpl.
  - destruct s as [|a s]; [ discriminate | ].
    destruct (Ascii.eqb _ _); [ | discriminate ].
    intro H; exists (Some a), s, []; split; [ constructor | exact H ].
  - destruct s as [|a s]; [ discriminate | ].
    intro H; exists (Some a), s, []; split; [ constructor | exact H ].
  - intro H; destruct (plus_go_inv _ _ _ _ _ H) as (ds & s' & a & _ & _ & _ & Hk).
    exists (Some a), s', []; split; [ constructor | exact Hk ].
  - destruct Hok as [Hok1 Hok2]; intro H.
    destruct (IH1 Hok1 _ _ _ _ _ H) as (p1 & s1 & l1 & Hl1 & H1).
    destruct (IH2 Hok2 _ _ _ _ _ H1) as (p2 & s2 & l2 & Hl2 & H2).
    exists p2, s2, (l2 ++ l1)%list; split; [ now apply caps_ok_app | ].
    now rewrite <- app_assoc.
  - destruct Hok as [Hok1 Hok2].
    destruct (Regex.mtch r1 prev s caps k) eqn:E1.
    + intro H; injection H as <-; eapply IH1; eassumption.
    + intro H; eapply IH2; eassumption.
  - simpl in Hok; destruct (group_class n) as [cls|] eqn:Hn.
    + destruct r1 as [| |cls'| | | | | |]; try contradiction; simpl.
      intro H; destruct (plus_go_inv _ _ _ _ _ H) as (ds & s' & a & -> & Hne & Hall & Hk).
      exists (Some a), s', [(n, ds)]; split.
      * repeat constructor; simpl; rewrite Hn; split; [ exact Hne | ].
        eapply Forall_impl; [ | exact Hall ]; intros x Hx; apply Hok; exact Hx.
      * simpl; rewrite (firstn_consumed ds s' (ds ++ s') (List.length s')) in Hk
          by reflexivity; exact Hk.
    + intro H; destruct (IH1 Hok _ _ _ _ _ H) as (p & s' & l & Hl & Hk).
      exists p, s', ((n, firstn (List.length s - List.length s') s) :: l); split.
      * constructor; [ simpl; rewrite Hn; exact I | exact Hl ].
      * exact Hk.
  - destruct (Regex.mtch r1 prev s caps k) eqn:E1.
    + intro H; injection H as <-; eapply IH1; eassumption.
    + intro H; exists prev, s, []; split; [ constructor | exact H ].
  - intro H; exists prev, s, []; split; [ constructor | ].
    destruct prev as [a|]; [ destruct (Regex.is_line_terminator a); [ exact H | discriminate ] | exact H ].
  - intro H; exists prev, s, []; split; [ constructor | ].
    destruct s as [|a s']; [ exact H | destruct (Regex.is_line_terminator a); [ exact H | discriminate ] ].
Qed.

Lemma exec_from_inv (r : Regex.re) (prev : option ascii) (s : list ascii) (c : Regex.Caps) :
  groups_ok r -> Regex.exec_from r prev s = Some c -> caps_ok c.
Proof.
  intro Hok; revert prev; induction s as [|a s IH]; intro prev; simpl;
  destruct (Regex.mtch r prev _ [] _) eqn:E.
  1,3: intro H; injection H as <-;
       destruct (mtch_inv r Hok _ _ _ _ _ E) as (p & s' & l & Hl & Hk);
       rewrite app_nil_r in Hk; injection Hk as <-; exact Hl.
  - discriminate.
  - apply IH.
Qed.

Lemma cap_ok (c : Regex.Caps) (n : nat) (v : list ascii) (cls : ascii -> bool) :
  caps_ok c -> Regex.cap n c = Some v -> group_class n = Some cls ->
  v <> [] /\ Forall (fun a => cls a = true) v.
Proof.
  induction c as [|[m w] c IH]; simpl; [ discriminate | ].
  intros Hc; inversion Hc as [|? ? Hmw Hc']; subst.
  destruct (Nat.eqb_spec m n) as [->|_]; [ | now apply IH ].
  intros E Hn; injection E as <-; simpl in Hmw; rewrite Hn in Hmw; exact Hmw.
Qed.

Lemma digits_fold_nonneg (ds : list ascii) (acc : Z) :
  0 <= acc -> Forall (fun c => Regex.is_digit c = true) ds ->
  0 <= fold_left (fun acc c => acc * 10 + JS.digit_value c) ds acc.
Proof.
  intros Ha Hall; revert acc Ha.
  induction Hall as [|x l Hx _ IH]; intros a Ha; simpl; [ exact Ha | ].
  apply IH; unfold Regex.is_digit, JS.digit_value in *.
  apply andb_prop in Hx as [Hx _]; apply Nat.leb_le in Hx; lia.
Qed.

Lemma digitsValue_nonneg (ds : list ascii) :
  Forall (fun c => Regex.is_digit c = true) ds -> 0 <= JS.digitsValue ds.
Proof. apply digits_fold_nonneg; lia. Qed.

(** A Number that is not below zero. *)
Definition nonneg (x : number) : Prop :=
  match x with Num z => 0 <= z | Infinity => True end.

Lemma parseInt_nonneg (ds : list ascii) :
  Forall (fun c => Regex.is_digit c = true) ds -> nonneg (JS.parseInt ds).
Proof.
  intro H; apply digitsValue_nonneg in H; unfold JS.parseInt.
  destruct (Z.ltb_spec (JS.digitsValue ds) (2 ^ 53)) as [Hs|Hl].
  - rewrite double_of_Z_small by exact Hs; exact H.
  - destruct (double_of_Z_large _ Hl) as [->|[v [-> Hv]]]; simpl; [ exact I | lia ].
Qed.

Lemma version_regex_groups_ok : groups_ok Regex.version_regex.
Proof. simpl; repeat split; intros; assumption. Qed.

Lemma parse_ranges (s : string) (vi : VersionInfo) :
  extractVersionInfo s = Some vi ->
  nonneg (major vi) /\ nonneg (minor vi) /\ nonneg (patch vi) /\
  (forall n, releaseCandidate vi = Some n -> nonneg n) /\
  (forall h, hash vi = Some h ->
     h <> "" /\ Forall (fun ch => Regex.is_hex_i ch = true) (list_ascii_of_string h)).
Proof.
  unfold extractVersionInfo.
  destruct (Regex.exec Regex.version_regex s) as [m|] eqn:E; [ | discriminate ].
  assert (Hm : caps_ok m) by (eapply exec_from_inv; [ apply version_regex_groups_ok | exact E ]).
  destruct (Regex.cap 1 m) as [g1|] eqn:E1; [ | discriminate ].
  destruct (Regex.cap 2 m) as [g2|] eqn:E2; [ | discriminate ].
  destruct (Regex.cap 3 m) as [g3|] eqn:E3; [ | discriminate ].
  intro H; injection H as <-; simpl.
  split; [ | split; [ | split; [ | split ] ] ].
  - apply parseInt_nonneg; eapply cap_ok; eauto; reflexivity.
  - apply parseInt_nonneg; eapply cap_ok; eauto; reflexivity.
  - apply parseInt_nonneg; eapply cap_ok; eauto; reflexivity.
  - intros n Hn; destruct (Regex.cap 9 m) as [g9|] eqn:E9; [ | discriminate ].
    injection Hn as <-; apply parseInt_nonneg; eapply cap_ok; eauto; reflexivity.
  - intros hs Hs; destruct (Regex.cap 10 m) as [g10|] eqn:E10; [ | discriminate ].
    injection Hs as <-.
    destruct (cap_ok m 10 g10 Regex.is_hex_i Hm E10 eq_refl) as [Hne Hall].
    rewrite list_ascii_of_string_of_list_ascii; split; [ | exact Hall ].
    destruct g10; [ contradiction | discriminate ].
Qed.

(** Whatever string [extractVersionInfo] accepts, the major, minor, patch and
    rc numbers it returns are not negative (an integer at least 0, or
    Infinity for a run of digits beyond the doubles), and the hash it
    returns, if any, is a non-empty run of hexadecimal digits. *)
Theorem extractVersionInfo_ranges (s : string) (vi : VersionInfo) :
  extractVersionInfo s = Some vi ->
  nonneg (major vi) /\ nonneg (minor vi) /\ nonneg (patch vi) /\
  (forall n, releaseCandidate vi = Some n -> nonneg n) /\
  (forall h, hash vi = Some h ->
     h <> "" /\ Forall (fun ch => Regex.is_hex_i ch = true) (list_ascii_of_string h)).
Proof. apply parse_ranges. Qed.

(** ** Runs, composed *)

Lemma result_no_write (ev : Event) : result_event ev = false -> write_event ev = false.
Proof. destruct ev; simpl; congruence. Qed.

(** Events of [run] that publish a result come from the rest of the run
    after a successful release fetch, and from its successful branch. *)
Lemma run_result_event (fuel : nat) (e : Env) evs (ev : Event) :
  run fuel e = Some evs -> In ev evs -> result_event ev = true ->
  exists revs releases date hd hp nv md,
    getReleases fuel e = Some (revs, inr releases) /\
    getCommit e (getOr (env_GITHUB_SHA e) "") = inr date /\
    compareCommits e (sha (selectDevelopmentBaseline releases date))
      (getOr (env_GITHUB_SHA e) "") = inr hd /\
    compareCommits e (sha (selectProductionBaseline releases date))
      (getOr (env_GITHUB_SHA e) "") = inr hp /\
    computeVersion (releaseTypeOf e) releases (selectDevelopmentBaseline releases date)
      (selectProductionBaseline releases date) hd date (getOr (env_GITHUB_SHA e) "")
      (context_sha e) = inr (nv, md) /\
    evs = (revs ++
           [EvGetCommit (getOr (env_GITHUB_SHA e) "");
            EvCompareCommits (sha (selectDevelopmentBaseline releases date))
              (getOr (env_GITHUB_SHA e) "");
            EvCompareCommits (sha (selectProductionBaseline releases date))
              (getOr (env_GITHUB_SHA e) "");
            EvSetOutput "version" (nv ++ md);
            EvSetOutput "normalisedVersion" (JS.replace_first "+"%char "-" (nv ++ md));
            EvSetOutput "versionNumber" (JS.replace_first "v"%char "" nv)]
           ++ publish e (dryRunOf e) (nv ++ md)
                (generateChangelog (releaseTypeOf e) hd hp) (releaseTypeOf e))%list /\
    In ev ([EvSetOutput "version" (nv ++ md);
            EvSetOutput "normalisedVersion" (JS.replace_first "+"%char "-" (nv ++ md));
            EvSetOutput "versionNumber" (JS.replace_first "v"%char "" nv)]
           ++ publish e (dryRunOf e) (nv ++ md)
                (generateChangelog (releaseTypeOf e) hd hp) (releaseTypeOf e))%list.
Proof.
  intros Hrun Hin Hres.
  destruct (run_shape _ _ _ Hrun)
    as [[msg ->] | [(revs & msg & Hget & ->) | (revs & rs & tb & Hget & ->)]].
  - destruct Hin as [<-|[]]; discriminate.
  - pose proof (loop_events_no_result _ (getReleases_events _ _ _ _ Hget)) as Hrev.
    apply in_app_or in Hin as [Hin|[<-|[]]]; [ rewrite (Hrev ev Hin) in Hres | ];
      discriminate.
  - pose proof (loop_events_no_result _ (getReleases_events _ _ _ _ Hget)) as Hrev.
    apply in_app_or in Hin as [Hin|Hin]; [ rewrite (Hrev ev Hin) in Hres; discriminate | ].
    destruct (run_after_cases e (getOr (env_GITHUB_SHA e) "") (releaseTypeOf e) tb (dryRunOf e) rs)
      as [(pre & msg & Ha & Hpre) | (date & hd & hp & nv & md & Ec & Ed & Ep & Ev & Ha)];
      rewrite Ha in *.
    + apply in_app_or in Hin as [Hin|[<-|[]]]; [ rewrite (Hpre ev Hin) in Hres | ];
        discriminate.
    + exists revs, rs, date, hd, hp, nv, md; repeat split; try assumption.
      destruct Hin as [<-|[<-|[<-|Hin]]]; try discriminate; exact Hin.
Qed.

(** With DRY_RUN set to ['true'], a run creates no tag, no ref and no
    release, and uploads nothing to Slack. *)
Theorem dry_run_writes_nothing (fuel : nat) (e : Env) evs :
  env_DRY_RUN e = Some "true" -> run fuel e = Some evs ->
  forall ev, In ev evs -> write_event ev = false.
Proof.
  intros Hdry Hrun ev Hin.
  destruct (write_event ev) eqn:Hw; [ | reflexivity ].
  assert (Hres : result_event ev = true) by (destruct ev; simpl in *; congruence).
  destruct (run_result_event _ _ _ _ Hrun Hin Hres)
    as (revs & rs & date & hd & hp & nv & md & _ & _ & _ & _ & _ & _ & Hev).
  unfold dryRunOf, publish in Hev; rewrite Hdry in Hev; simpl in Hev.
  intuition (subst; discriminate).
Qed.

(** A created release in the writes of a run: the tag and the ref of its
    name were created before it, and the Slack upload of its body follows
    when it succeeds. *)
Lemma publish_release (e : Env) (dry : bool) (v cl : string) (rt : ReleaseType)
  (t body : string) (pre : bool) :
  In (EvCreateRelease t body pre) (publish e dry v cl rt) ->
  dry = false /\ t = v /\ body = cl /\ pre = negb (String.eqb rt "production") /\
  writeFails e (EvCreateTag v) = None /\
  writeFails e (EvCreateRef ("refs/tags/" ++ v)) = None /\
  In (EvCreateTag v) (publish e dry v cl rt) /\
  In (EvCreateRef ("refs/tags/" ++ v)) (publish e dry v cl rt) /\
  (writeFails e (EvCreateRelease t body pre) = None ->
   In (EvSlackUpload cl) (publish e dry v cl rt)).
Proof.
  unfold publish; destruct dry; [ intros [] | ].
  destruct (context_repo e); [ | intros [H|[]]; discriminate ].
  cbn [requests].
  destruct (writeFails e (EvCreateTag v)) eqn:W1;
    [ intros [H|[H|[]]]; discriminate | ].
  destruct (writeFails e (EvCreateRef ("refs/tags/" ++ v))) eqn:W2;
    [ intros [H|[H|[H|[]]]]; discriminate | ].
  intros [H|[H|[H|H]]]; try discriminate;
    [ | destruct (writeFails e (EvCreateRelease _ _ _)) as [m|];
        [ destruct H as [H|[]]; discriminate
        | destruct H as [H|H]; [ discriminate | ];
          destruct (writeFails e (EvSlackUpload cl)); [ destruct H as [H|[]] | destruct H ];
          discriminate ] ].
  injection H as <- <- <-.
  repeat split; try reflexivity; try assumption; simpl; try tauto.
  intro W3; rewrite W3; simpl; tauto.
Qed.

(** A created release has the name of the ['version'] output; the tag of
    that name and the ref [refs/tags/<version>] were created, successfully,
    before it; when the release succeeds, its body is uploaded to Slack; it
    is a prerelease exactly when the channel is not ['production']; and the
    run was not a dry run. *)
Theorem release_matches_outputs (fuel : nat) (e : Env) evs (t body : string) (pre : bool) :
  run fuel e = Some evs -> In (EvCreateRelease t body pre) evs ->
  In (EvSetOutput "version" t) evs /\ In (EvCreateTag t) evs /\
  In (EvCreateRef ("refs/tags/" ++ t)) evs /\
  writeFails e (EvCreateTag t) = None /\
  writeFails e (EvCreateRef ("refs/tags/" ++ t)) = None /\
  (writeFails e (EvCreateRelease t body pre) = None -> In (EvSlackUpload body) evs) /\
  pre = negb (String.eqb (releaseTypeOf e) "production") /\
  env_DRY_RUN e <> Some "true".
Proof.
  intros Hrun Hin.
  destruct (run_result_event _ _ _ _ Hrun Hin eq_refl)
    as (revs & rs & date & hd & hp & nv & md & _ & _ & _ & _ & _ & -> & Hev).
  destruct Hev as [H|[H|[H|Hev]]]; try discriminate.
  destruct (publish_release _ _ _ _ _ _ _ _ Hev)
    as (Hd & -> & -> & -> & W1 & W2 & Ht & Hr & Hs).
  assert (Hpub : forall ev, In ev (publish e (dryRunOf e) (nv ++ md)
                   (generateChangelog (releaseTypeOf e) hd hp) (releaseTypeOf e)) ->
                 In ev (revs ++ [EvGetCommit (getOr (env_GITHUB_SHA e) "");
            EvCompareCommits (sha (selectDevelopmentBaseline rs date))
              (getOr (env_GITHUB_SHA e) "");
            EvCompareCommits (sha (selectProductionBaseline rs date))
              (getOr (env_GITHUB_SHA e) "");
            EvSetOutput "version" (nv ++ md);
            EvSetOutput "normalisedVersion" (JS.replace_first "+"%char "-" (nv ++ md));
            EvSetOutput "versionNumber" (JS.replace_first "v"%char "" nv)]
           ++ publish e (dryRunOf e) (nv ++ md)
                (generateChangelog (releaseTypeOf e) hd hp) (releaseTypeOf e))%list)
    by (intros ev Hev'; apply in_or_app; right; apply in_or_app; right; exact Hev').
  repeat split; auto.
  - apply in_or_app; right; simpl; tauto.
  - unfold dryRunOf in Hd; intro Hdr; rewrite Hdr in Hd; discriminate.
Qed.

(** A run sets an output or writes anything only after the release fetch
    returned a catalog, the commit timestamp was fetched, and both
    comparisons, against the development and the production baseline
    selected from that catalog at that timestamp, succeeded. *)
Theorem results_need_history (fuel : nat) (e : Env) evs (ev : Event) :
  run fuel e = Some evs -> In ev evs -> result_event ev = true ->
  exists revs releases date historyDev historyProd,
    getReleases fuel e = Some (revs, inr releases) /\
    getCommit e (getOr (env_GITHUB_SHA e) "") = inr date /\
    compareCommits e (sha (selectDevelopmentBaseline releases date))
      (getOr (env_GITHUB_SHA e) "") = inr historyDev /\
    compareCommits e (sha (selectProductionBaseline releases date))
      (getOr (env_GITHUB_SHA e) "") = inr historyProd.
Proof.
  intros Hrun Hin Hres.
  destruct (run_result_event _ _ _ _ Hrun Hin Hres)
    as (revs & rs & date & hd & hp & nv & md & Hget & Ec & Ed & Ep & _ & _ & _).
  exists revs, rs, date, hd, hp; repeat split; assumption.
Qed.

(** Every terminating run either sets the ['version'] output, or ends with a
    failure report after producing no output and no write. *)
Theorem run_outcome (fuel : nat) (e : Env) evs :
  run fuel e = Some evs ->
  (exists v, In (EvSetOutput "version" v) evs) \/
  (exists msg, last evs (EvSetFailed "") = EvSetFailed msg /\
               forall ev, In ev evs -> result_event ev = false).
Proof.
  intro Hrun.
  destruct (run_shape _ _ _ Hrun)
    as [[msg ->] | [(revs & msg & Hget & ->) | (revs & rs & tb & Hget & ->)]].
  - right; exists msg; split; [ reflexivity | intros ev [<-|[]]; reflexivity ].
  - pose proof (loop_events_no_result _ (getReleases_events _ _ _ _ Hget)) as Hrev.
    right; eexists; split; [ rewrite last_last; reflexivity | ].
    intros ev Hev; apply in_app_or in Hev as [Hev|[<-|[]]]; [ exact (Hrev ev Hev) | reflexivity ].
  - pose proof (loop_events_no_result _ (getReleases_events _ _ _ _ Hget)) as Hrev.
    destruct (run_after_cases e (getOr (env_GITHUB_SHA e) "") (releaseTypeOf e) tb (dryRunOf e) rs)
      as [(pre & msg & Ha & Hpre) | (date & hd & hp & nv & md & Ec & Ed & Ep & Ev & Ha)];
      rewrite Ha.
    + right; eexists; split; [ rewrite app_assoc, last_last; reflexivity | ].
      intros ev Hev; apply in_app_or in Hev as [Hev|Hev]; [ exact (Hrev ev Hev) | ].
      apply in_app_or in Hev as [Hev|[<-|[]]]; [ exact (Hpre ev Hev) | reflexivity ].
    + left; exists (nv ++ md); apply in_or_app; right; simpl; tauto.
Qed.

(** Outside the development channel the version is the development
    baseline's number. *)
Lemma computeVersion_not_development (rt : ReleaseType) (releases : list UsefulReleaseData)
  (lastDev lastProd : UsefulReleaseData) (historyDev : list string) (date : Z)
  (G : string) (ctx : option string) (nv md : string) :
  rt <> "development" ->
  computeVersion rt releases lastDev lastProd historyDev date G ctx = inr (nv, md) ->
  nv = versionString (triple (versionInfo lastDev)).
Proof.
  intro Hrt; apply String.eqb_neq in Hrt; unfold computeVersion; rewrite Hrt.
  destruct (String.eqb rt "rc"); [ destruct ctx; [ | discriminate ] | ];
    intro H; injection H as <- _; reflexivity.
Qed.

(** Outside the development channel, the ['versionNumber'] output is the
    number of the development baseline selected at the commit timestamp,
    unchanged by the commits. *)
Theorem release_keeps_baseline_number (fuel : nat) (e : Env) evs (n : string) :
  run fuel e = Some evs -> releaseTypeOf e <> "development" ->
  In (EvSetOutput "versionNumber" n) evs ->
  exists revs releases date,
    getReleases fuel e = Some (revs, inr releases) /\
    getCommit e (getOr (env_GITHUB_SHA e) "") = inr date /\
    "v" ++ n = versionString (triple (versionInfo (selectDevelopmentBaseline releases date))).
Proof.
  intros Hrun Hdev Hin.
  destruct (run_result_event _ _ _ _ Hrun Hin eq_refl)
    as (revs & rs & date & hd & hp & nv & md & Hget & Ec & _ & _ & Ev & _ & Hev).
  exists revs, rs, date; split; [ exact Hget | split; [ exact Ec | ] ].
  rewrite <- (computeVersion_not_development _ _ _ _ _ _ _ _ _ _ Hdev Ev).
  destruct Hev as [H|[H|[H|Hev]]]; try discriminate.
  - injection H as <-.
    rewrite (computeVersion_not_development _ _ _ _ _ _ _ _ _ _ Hdev Ev).
    destruct (triple _) as [[a b] c]; reflexivity.
  - apply publish_events in Hev as [Hw|[m Hm]]; discriminate.
Qed.

Lemma str_app_assoc (x y z : string) : x ++ y ++ z = (x ++ y) ++ z.
Proof. induction x; simpl; congruence. Qed.

Lemma append_empty (s : string) : s ++ "" = s.
Proof. induction s; simpl; congruence. Qed.

(** ** Changelog structure *)

Definition fallbackLine : string := "General bug fixes and improvements" ++ JS.nl.

Lemma section_prefix (c x : string) (b : bool) (h : string) (g bd : list string) :
  section (c ++ x, b) h g bd = (c ++ fst (section (x, b) h g bd), snd (section (x, b) h g bd)).
Proof. unfold section; destruct (Nat.ltb 0 _); simpl; [ now rewrite !str_app_assoc | reflexivity ]. Qed.

Lemma sections_prefix (c : string) (msgs : list string) :
  sections c msgs = c ++ sections "" msgs.
Proof.
  unfold sections; cbv zeta; replace (c, false) with (c ++ "", false) by now rewrite append_empty.
  rewrite !section_prefix; cbn [fst snd]; rewrite <- !surjective_pairing.
  destruct (snd (section _ "### Refactors" _ _)); [ reflexivity | now rewrite <- !str_app_assoc ].
Qed.

(** The block invariant: nothing added yet, or an addition starting with a heading. *)
Definition heading_inv (c : string) (acc : string * bool) : Prop :=
  (snd acc = false /\ fst acc = c) \/ (snd acc = true /\ exists r, fst acc = c ++ String "#" r).

Lemma section_inv (c : string) (acc : string * bool) (r0 : string) (g bd : list string) :
  heading_inv c acc -> heading_inv c (section acc (String "#" r0) g bd).
Proof.
  unfold section; destruct (Nat.ltb 0 _); [ | exact id ].
  intros [[_ ->]|[_ [r ->]]]; right; split; [ reflexivity | | reflexivity | ].
  - now exists (r0 ++ JS.nl ++ JS.join bd JS.nl ++ JS.nl).
  - exists (r ++ String "#" (r0 ++ JS.nl ++ JS.join bd JS.nl ++ JS.nl)).
    rewrite <- !str_app_assoc; reflexivity.
Qed.

Lemma section_snd (acc : string * bool) (h : string) (g bd : list string) :
  snd (section acc h g bd) = (snd acc || Nat.ltb 0 (List.length g))%bool.
Proof. unfold section; destruct (Nat.ltb 0 _); simpl; [ now rewrite orb_true_r | now rewrite orb_false_r ]. Qed.

Lemma changes_guard (msgs : list string) (tok : string) :
  Nat.ltb 0 (List.length (changes msgs tok)) = existsb (fun m => JS.startsWith (low m) tok) msgs.
Proof.
  unfold changes; rewrite length_map.
  induction msgs as [|m msgs IH]; simpl; [ reflexivity | ].
  destruct (JS.startsWith (low m) tok); simpl; [ reflexivity | exact IH ].
Qed.

Lemma existsb_token (msgs : list string) :
  existsb changelogToken msgs =
  (existsb (fun m => JS.startsWith (low m) "breaking:") msgs
   || existsb (fun m => JS.startsWith (low m) "feat:") msgs
   || existsb (fun m => JS.startsWith (low m) "fix:") msgs
   || existsb (fun m => JS.startsWith (low m) "chore:") msgs
   || existsb (fun m => JS.startsWith (low m) "task:") msgs
   || existsb (fun m => JS.startsWith (low m) "refactor:") msgs)%bool.
Proof.
  induction msgs as [|m msgs IH]; [ reflexivity | ].
  simpl existsb; rewrite IH; unfold changelogToken; simpl existsb; btauto.
Qed.

Lemma string_app_cancel (c x y : string) : c ++ x = c ++ y -> x = y.
Proof. induction c; simpl; [ exact id | intro H; injection H; exact IHc ]. Qed.

(** A changelog block (the development or the production range) ends in the
    fallback line ['General bug fixes and improvements'] exactly when none of
    its messages, trimmed and lower-cased, starts with one of the six section
    tokens. *)
Theorem changelog_fallback (c : string) (msgs : list string) :
  sections c msgs = c ++ fallbackLine <->
  forallb (fun m => negb (changelogToken m)) msgs = true.
Proof.
  assert (Hf : forallb (fun m => negb (changelogToken m)) msgs = negb (existsb changelogToken msgs)).
  { induction msgs as [|m l IH]; simpl; [ reflexivity | rewrite IH; now destruct (changelogToken m) ]. }
  rewrite Hf; unfold sections; cbv zeta.
  match goal with |- context [snd ?a] => set (A := a) end.
  assert (Hinv : heading_inv c A)
    by (unfold A; repeat apply section_inv; left; split; reflexivity).
  assert (Hs : snd A = existsb changelogToken msgs)
    by (unfold A; rewrite !section_snd, !changes_guard, existsb_token; cbn [snd]; btauto).
  unfold heading_inv in Hinv; rewrite Hs in *; unfold fallbackLine.
  destruct (existsb changelogToken msgs); simpl.
  - destruct Hinv as [[H _]|[_ [r Hr]]]; [ discriminate | rewrite Hr ].
    split; [ | discriminate ].
    intro H; apply string_app_cancel in H; discriminate.
  - destruct Hinv as [[_ Hr]|[H _]]; [ rewrite Hr; tauto | discriminate ].
Qed.

(** The rc changelog is the production changelog under the heading
    ['# All changes since last production release']; the development
    changelog is the development block, a blank line, then that rc
    changelog.  The rc and production changelogs do not depend on the
    development history. *)
Theorem changelog_layout (dev dev' prod : list string) :
  generateChangelog "rc" dev prod =
    "# All changes since last production release" ++ JS.nl ++ JS.nl
    ++ generateChangelog "production" dev' prod /\
  generateChangelog "development" dev prod =
    sections ("# Changes since last development release" ++ JS.nl ++ JS.nl) dev ++ JS.nl
    ++ generateChangelog "rc" dev' prod.
Proof.
  unfold generateChangelog.
  change (String.eqb "rc" "development") with false;
  change (String.eqb "rc" "production") with false;
  change (String.eqb "production" "development") with false;
  change (String.eqb "production" "production") with true;
  change (String.eqb "development" "development") with true;
  change (String.eqb "development" "production") with false;
  cbv beta iota; simpl negb; cbv beta iota.
  rewrite (sections_prefix ("" ++ _) prod); split; [ reflexivity | ].
  rewrite (sections_prefix ((_ ++ _) ++ _) prod), <- !str_app_assoc; reflexivity.
Qed.
(** ** Bump and changelog together *)

Lemma prefix_app_l (p q s : string) : String.prefix (p ++ q) s = true -> String.prefix p s = true.
Proof.
  revert s; induction p as [|a p IH]; intros s H; [ destruct s; reflexivity | ].
  destruct s as [|b s]; [ discriminate | ].
  cbn [append String.prefix] in *.
  destruct (Ascii.ascii_dec a b); [ exact (IH s H) | discriminate ].
Qed.

Lemma token_word (m : string) : changelogToken m = true -> bumpWord m = true.
Proof.
  unfold changelogToken, bumpWord, patchWord, minorWord, majorWord, JS.startsWith; simpl existsb.
  intro H; repeat (apply orb_true_iff in H as [H|H]);
    try discriminate;
    first [ apply (prefix_app_l "breaking" ":") in H
          | apply (prefix_app_l "feat" ":") in H
          | apply (prefix_app_l "fix" ":") in H
          | apply (prefix_app_l "chore" ":") in H
          | apply (prefix_app_l "task" ":") in H
          | apply (prefix_app_l "refactor" ":") in H ];
    rewrite H; rewrite ?orb_true_r; reflexivity.
Qed.

Lemma devBumpRule_fixed_iff (t : Z * Z * Z) (historyDev : list string) :
  devBumpRule t historyDev = t <-> existsb bumpWord historyDev = false.
Proof.
  destruct t as [[a b] c]; unfold devBumpRule, bumpWord.
  assert (E : existsb (fun m => (patchWord m || minorWord m || majorWord m)%bool) historyDev
              = (existsb patchWord historyDev || existsb minorWord historyDev
                 || existsb majorWord historyDev)%bool).
  { induction historyDev as [|m l IH]; [ reflexivity | simpl; rewrite IH; btauto ]. }
  rewrite E.
  destruct (existsb majorWord historyDev), (existsb minorWord historyDev),
    (existsb patchWord historyDev); simpl; split; intro H;
    solve [ reflexivity | discriminate | injection H; lia ].
Qed.

Lemma nums_inj (s t : Z * Z * Z) : nums s = nums t -> s = t.
Proof.
  destruct s as [[a b] c], t as [[x y] z]; simpl; intro H; injection H as -> -> ->; reflexivity.
Qed.

Lemma bump_fixed_iff (M m p : Z) (historyDev : list string) :
  M < 2 ^ 53 -> m < 2 ^ 53 -> p < 2 ^ 53 ->
  bump (nums (M, m, p)) (bumpFlags historyDev) = nums (M, m, p) <->
  existsb bumpWord historyDev = false.
Proof.
  intros HM Hm Hp.
  replace (bump (nums (M, m, p)) (bumpFlags historyDev))
    with (nums (devBumpRule (M, m, p) historyDev)) by (symmetry; apply bump_safe; assumption).
  rewrite <- devBumpRule_fixed_iff; split; [ apply nums_inj | intro H; rewrite H; reflexivity ].
Qed.

(** On major, minor and patch numbers that are integers below 2^53, the
    development bump leaves the baseline numbers unchanged exactly when no
    commit message, trimmed and lower-cased, starts with one of the bump
    words [fix], [chore], [refactor], [task], [feat], [breaking]. *)
Theorem development_version_changes (M m p : Z) (historyDev : list string) :
  M < 2 ^ 53 -> m < 2 ^ 53 -> p < 2 ^ 53 ->
  bump (nums (M, m, p)) (bumpFlags historyDev) = nums (M, m, p) <->
  existsb bumpWord historyDev = false.
Proof. apply bump_fixed_iff. Qed.

(** On major, minor and patch numbers that are integers below 2^53, a
    development history with a commit that the changelog lists in some
    section always moves the development version: the bump words are the
    section tokens without their colon. *)
Theorem listed_commit_bumps (M m p : Z) (historyDev : list string) :
  M < 2 ^ 53 -> m < 2 ^ 53 -> p < 2 ^ 53 ->
  existsb changelogToken historyDev = true ->
  bump (nums (M, m, p)) (bumpFlags historyDev) <> nums (M, m, p).
Proof.
  intros HM Hm Hp H Heq; apply (bump_fixed_iff M m p historyDev HM Hm Hp) in Heq.
  apply existsb_exists in H as (x & Hx & Hk).
  apply token_word in Hk.
  assert (existsb bumpWord historyDev = true) by (apply existsb_exists; eauto).
  congruence.
Qed.

(** ** The release catalog *)

(** Every release of the catalog has a name that [extractVersionInfo]
    accepts, and its version information is that parse: releases whose
    names do not parse are dropped. *)
Theorem getReleases_names_parse (fuel : nat) (e : Env) evs rs :
  getReleases fuel e = Some (evs, inr rs) ->
  forall r, In r rs -> extractVersionInfo (name r) = Some (versionInfo r).
Proof.
  intros H r Hr; exact (proj1 (Forall_forall _ _) (getReleases_catalog _ _ _ _ H) r Hr).
Qed.

(** ** Instances on concrete runs *)

(** A development run over an empty catalog, and the same run with
    [DRY_RUN] set to ["true"]. *)
Definition devEnv : Env := baseEnv (Some "development") emptyCatalog.

Definition dryEnv : Env :=
  mkEnv (env_GITHUB_REF devEnv) (env_GITHUB_SHA devEnv) (env_GITHUB_TOKEN devEnv)
    (input_github_token devEnv) (env_RELEASE_TYPE devEnv) (input_release_type devEnv)
    (Some "true") (env_GITHUB_OWNER devEnv) (env_GITHUB_REPO devEnv) (context_repo devEnv)
    (context_sha devEnv) (releaseSource devEnv) (getCommit devEnv)
    (compareCommits devEnv) (writeFails devEnv).

Definition devEvents : list Event :=
  Eval vm_compute in match run 1 devEnv with Some evs => evs | None => [] end.

Definition dryEvents : list Event :=
  Eval vm_compute in match run 1 dryEnv with Some evs => evs | None => [] end.

Definition devBody : string :=
  Eval vm_compute in generateChangelog "development" ["feat: b"] ["feat: b"].

Definition releaseEdge (nm : string) (date : Z) : option ReleaseEdge :=
  Some (mkReleaseEdge (Some (mkReleaseNode (Some nm) (Some date) None false))).

(** One page with a release and a note that is not a version. *)
Definition mixedPage : ReleaseSource :=
  fun _ => okPage [releaseEdge "v1.0.0" 5000; releaseEdge "notes" 6000] None false.

Definition mixedCatalog : list UsefulReleaseData :=
  Eval vm_compute in
    match getReleases 1 (baseEnv (Some "development") mixedPage) with
    | Some (_, inr rs) => rs
    | _ => []
    end.

Definition rcEnv : Env := baseEnv (Some "rc") emptyCatalog.

Definition rcEvents : list Event :=
  Eval vm_compute in match run 1 rcEnv with Some evs => evs | None => [] end.

Ltac hex_tac := repeat (apply Forall_cons; [ reflexivity | ]); apply Forall_nil.

Lemma safe_integer_print_parse_witness :
  (0 <= 42 < 2 ^ 53) /\
  JS.number_toString (Num 42) = JS.decimal 42 /\
  list_ascii_of_string (JS.decimal 42) <> [] /\
  Forall (fun c => Regex.is_digit c = true) (list_ascii_of_string (JS.decimal 42)) /\
  JS.parseInt (list_ascii_of_string (JS.decimal 42)) = Num 42.
Proof. split; [ lia | apply safe_integer_print_parse; lia ]. Defined.

Lemma versionString_roundtrip_witness :
  extractVersionInfo (versionString (nums (1, 2, 3)))
    = Some (mkVersionInfo (Num 1) (Num 2) (Num 3) "production" None None) /\
  extractVersionInfo (versionString (nums (1, 2, 3)) ++ "-development+" ++ "abcdef1")
    = Some (mkVersionInfo (Num 1) (Num 2) (Num 3) "development" None (Some "abcdef1")) /\
  extractVersionInfo (versionString (nums (1, 2, 3)) ++ "-rc." ++ JS.number_toString (Num 4)
                      ++ "+" ++ "abcdef1")
    = Some (mkVersionInfo (Num 1) (Num 2) (Num 3) "rc" (Some (Num 4)) (Some "abcdef1")).
Proof.
  apply versionString_roundtrip; [ lia | lia | lia | lia | discriminate | hex_tac ].
Defined.

Lemma extractVersionInfo_ranges_witness :
  extractVersionInfo "v1.2.3-rc.4+abc"
    = Some (mkVersionInfo (Num 1) (Num 2) (Num 3) "rc" (Some (Num 4)) (Some "abc")) /\
  nonneg (Num 1) /\ nonneg (Num 2) /\ nonneg (Num 3) /\
  (forall n, Some (Num 4) = Some n -> nonneg n) /\
  (forall h, Some "abc" = Some h ->
     h <> "" /\ Forall (fun ch => Regex.is_hex_i ch = true) (list_ascii_of_string h)).
Proof.
  split; [ vm_compute; reflexivity | ].
  exact (extractVersionInfo_ranges "v1.2.3-rc.4+abc"
           (mkVersionInfo (Num 1) (Num 2) (Num 3) "rc" (Some (Num 4)) (Some "abc"))
           ltac:(vm_compute; reflexivity)).
Defined.

Lemma dry_run_writes_nothing_witness :
  env_DRY_RUN dryEnv = Some "true" /\ run 1 dryEnv = Some dryEvents /\
  forall ev, In ev dryEvents -> write_event ev = false.
Proof.
  split; [ reflexivity | split; [ vm_compute; reflexivity | ] ].
  apply (dry_run_writes_nothing 1 dryEnv); [ reflexivity | vm_compute; reflexivity ].
Defined.

Lemma release_matches_outputs_witness :
  run 1 devEnv = Some devEvents /\
  In (EvCreateRelease "v0.1.0-development+abcdef1" devBody true) devEvents /\
  In (EvSetOutput "version" "v0.1.0-development+abcdef1") devEvents /\
  In (EvCreateTag "v0.1.0-development+abcdef1") devEvents /\
  In (EvCreateRef ("refs/tags/" ++ "v0.1.0-development+abcdef1")) devEvents /\
  writeFails devEnv (EvCreateTag "v0.1.0-development+abcdef1") = None /\
  writeFails devEnv (EvCreateRef ("refs/tags/" ++ "v0.1.0-development+abcdef1")) = None /\
  (writeFails devEnv (EvCreateRelease "v0.1.0-development+abcdef1" devBody true) = None ->
   In (EvSlackUpload devBody) devEvents) /\
  true = negb (String.eqb (releaseTypeOf devEnv) "production") /\
  env_DRY_RUN devEnv <> Some "true".
Proof.
  split; [ vm_compute; reflexivity | split; [ find_in | ] ].
  apply (release_matches_outputs 1 devEnv); [ vm_compute; reflexivity | find_in ].
Defined.

Lemma results_need_history_witness :
  run 1 devEnv = Some devEvents /\
  In (EvCreateTag "v0.1.0-development+abcdef1") devEvents /\
  exists revs releases date historyDev historyProd,
    getReleases 1 devEnv = Some (revs, inr releases) /\
    getCommit devEnv (getOr (env_GITHUB_SHA devEnv) "") = inr date /\
    compareCommits devEnv (sha (selectDevelopmentBaseline releases date))
      (getOr (env_GITHUB_SHA devEnv) "") = inr historyDev /\
    compareCommits devEnv (sha (selectProductionBaseline releases date))
      (getOr (env_GITHUB_SHA devEnv) "") = inr historyProd.
Proof.
  split; [ vm_compute; reflexivity | split; [ find_in | ] ].
  apply (results_need_history 1 devEnv devEvents (EvCreateTag "v0.1.0-development+abcdef1"));
    [ vm_compute; reflexivity | find_in | reflexivity ].
Defined.

Lemma run_outcome_witness :
  run 1 devEnv = Some devEvents /\
  ((exists v, In (EvSetOutput "version" v) devEvents) \/
   (exists msg, last devEvents (EvSetFailed "") = EvSetFailed msg /\
                forall ev, In ev devEvents -> result_event ev = false)).
Proof.
  split; [ vm_compute; reflexivity | ].
  apply (run_outcome 1 devEnv); vm_compute; reflexivity.
Defined.

Lemma getReleases_names_parse_witness :
  getReleases 1 (baseEnv (Some "development") mixedPage)
    = Some ([EvQueryReleases None], inr mixedCatalog) /\
  map name mixedCatalog = ["v1.0.0"] /\
  forall r, In r mixedCatalog -> extractVersionInfo (name r) = Some (versionInfo r).
Proof.
  split; [ vm_compute; reflexivity | split; [ reflexivity | ] ].
  apply (getReleases_names_parse 1 (baseEnv (Some "development") mixedPage)
           [EvQueryReleases None]); vm_compute; reflexivity.
Defined.

Lemma development_version_changes_witness :
  1 < 2 ^ 53 /\ 2 < 2 ^ 53 /\ 3 < 2 ^ 53 /\
  (bump (nums (1, 2, 3)) (bumpFlags ["docs: readme"]) = nums (1, 2, 3) <->
   existsb bumpWord ["docs: readme"] = false).
Proof.
  split; [ lia | split; [ lia | split; [ lia | ] ] ].
  apply development_version_changes; lia.
Defined.

Lemma listed_commit_bumps_witness :
  existsb changelogToken ["fix: typo"] = true /\
  bump (nums (1, 2, 3)) (bumpFlags ["fix: typo"]) <> nums (1, 2, 3).
Proof.
  split; [ reflexivity | ].
  apply listed_commit_bumps; [ lia | lia | lia | reflexivity ].
Defined.

Lemma release_keeps_baseline_number_witness :
  run 1 rcEnv = Some rcEvents /\ releaseTypeOf rcEnv <> "development" /\
  In (EvSetOutput "versionNumber" "0.0.0") rcEvents /\
  exists revs releases date,
    getReleases 1 rcEnv = Some (revs, inr releases) /\
    getCommit rcEnv (getOr (env_GITHUB_SHA rcEnv) "") = inr date /\
    "v" ++ "0.0.0" = versionString (triple (versionInfo (selectDevelopmentBaseline releases date))).
Proof.
  split; [ vm_compute; reflexivity | split; [ vm_compute; discriminate | split ] ].
  - find_in.
  - apply (release_keeps_baseline_number 1 rcEnv rcEvents);
      [ vm_compute; reflexivity | vm_compute; discriminate | find_in ].
Defined.
